(** * Feature workers of the language service

    A shallow embedding of
    [packages/language-service/lib/utils/featureWorkers.ts]: the walker over
    the tree of embedded (virtual) codes, the level-indexed view of that tree,
    the position projections through a source map, and the dispatcher
    [languageFeatureWorker] with its specialisation [documentFeatureWorker].

    Conventions of the embedding.
    - A generator is the finite list of the values it yields, in order.
    - An [async] function is a computation in the monad [M] below: a state
      transformer over the plugins' world that either returns or throws
      (a rejected promise is a throw at the [await]).
    - [T | null | undefined] is the type [JsVal T]; the unary [!] of
      JavaScript is [truthy] on the values of [T].
    - Only the caller's [worker] is taken to have effects and to throw; the
      other callbacks ([transformResult], [combineResult], the two parameter
      builders), the document cache and the map oracle are total functions. *)

From stdpp Require Import gmap strings list pretty.
From Equations Require Import Equations.

(** ** Data model *)

(** [URI] of vscode-uri, read through its canonical string form. *)
Abbreviation URI := string (only parsing).

(** [vscode.Position]. *)
Record Position := mkPosition { line : nat; character : nat }.

(** [TextDocument] of vscode-languageserver-textdocument: an object of an
    external library, kept as the interface the workers use. *)
Record TextDocument := mkTextDocument {
  td_uri : URI;
  td_languageId : string;
  offsetAt : Position → nat;
  positionAt : nat → Position;
}.

(** [LanguageServicePlugin] (the descriptor, [plugin[0]]) and
    [LanguageServicePluginInstance] ([plugin[1]]); an instance is an object
    compared by identity, which [instanceId] stands for. *)
Record LanguageServicePlugin := mkPlugin { name : string }.
Record LanguageServicePluginInstance := mkInstance { instanceId : nat }.

Section Embedding.

(** Opaque types of the collaborators: [ts.IScriptSnapshot], the per-mapping
    [CodeInformation], and the [Mapping] objects of the source map. *)
Context {Snapshot CodeInformation Mapping : Type}.

(** [SourceMap<CodeInformation>] of @volar/source-map, as the two point
    queries the workers call; each yields [[offset, mapping]] pairs. *)
Record SourceMap := mkSourceMap {
  getSourceOffsets : nat → (CodeInformation → bool) → list (nat * Mapping);
  getGeneratedOffsets : nat → (CodeInformation → bool) → list (nat * Mapping);
}.

(** [VirtualCode]: [embeddedCodes] is an optional field. *)
#[warnings="-register-all"]
Inductive VirtualCode := mkVirtualCode {
  vc_id : string;
  vc_languageId : string;
  vc_snapshot : Snapshot;
  embeddedCodes : option (list VirtualCode);
}.

(** [SourceScript<URI>]; of [generated] only [root] is read. *)
Record SourceScript := mkSourceScript {
  ss_id : URI;
  ss_languageId : string;
  ss_snapshot : Snapshot;
  generated : option VirtualCode;
}.

Definition DocumentsAndMap : Type := TextDocument * TextDocument * SourceMap.

(** Modelled from the spec: the declaration of [LanguageServiceContext]
    ([../types]) is not among the sources. The fields are the ones the
    workers read: the script resolver [context.language.scripts], the map
    oracle [context.language.maps.get], the document cache
    [context.documents.get], the ordered plugin registry, the two disabled
    sets (the spec's "disabled-set keyed by plugin instance identity" and
    "disabled-set keyed by encoded embedded-document identity"; the code reads
    the latter with [get] and only tests the answer for truthiness) and the
    encoding function. *)
Record LanguageServiceContext := mkContext {
  scripts : gmap URI SourceScript;
  maps_get : VirtualCode → SourceScript → SourceMap;
  documents_get : URI → string → Snapshot → TextDocument;
  plugins : list (LanguageServicePlugin * LanguageServicePluginInstance);
  disabledServicePlugins : gset nat;
  disabledEmbeddedDocumentUris : gset URI;
  encodeEmbeddedDocumentUri : URI → string → URI;
}.

Implicit Types (context : LanguageServiceContext) (sourceScript : SourceScript)
  (current root node : VirtualCode).

(** ** EmbeddingWalker *)

(** The children a [for ... of current.embeddedCodes] guarded by
    [if (current.embeddedCodes)] iterates over. *)
Definition children (current : VirtualCode) : list VirtualCode :=
  match embeddedCodes current with
  | Some codes => codes
  | None => []
  end.

(** [context.disabledEmbeddedDocumentUris.get(uri)], tested for truthiness. *)
Definition isDisabledUri context (uri : URI) : bool :=
  bool_decide (uri ∈ disabledEmbeddedDocumentUris context).

(** The tuple built at lines 153-157. *)
Definition documentsOf context sourceScript current : DocumentsAndMap :=
  let embeddedDocumentUri :=
    encodeEmbeddedDocumentUri context (ss_id sourceScript) (vc_id current) in
  (documents_get context (ss_id sourceScript) (vc_languageId current) (vc_snapshot current),
   documents_get context embeddedDocumentUri (vc_languageId current) (vc_snapshot current),
   maps_get context current sourceScript).

(** [function* forEachEmbeddedDocument] (lines 141-159). *)
Fixpoint forEachEmbeddedDocument context sourceScript current
    : list DocumentsAndMap :=
  (match embeddedCodes current with
   | Some codes =>
       (fix each (rest : list VirtualCode) : list DocumentsAndMap :=
          match rest with
          | [] => []
          | embeddedCode :: rest' =>
              forEachEmbeddedDocument context sourceScript embeddedCode ++ each rest'
          end) codes
   | None => []
   end)
  ++
  (let embeddedDocumentUri :=
     encodeEmbeddedDocumentUri context (ss_id sourceScript) (vc_id current) in
   if negb (isDisabledUri context embeddedDocumentUri) then
     [(documents_get context (ss_id sourceScript) (vc_languageId current) (vc_snapshot current),
       documents_get context embeddedDocumentUri (vc_languageId current) (vc_snapshot current),
       maps_get context current sourceScript)]
   else []).

(** ** Level-indexed view *)

(** What [getEmbeddedFilesByLevel] hands back: an array of codes,
    [undefined] (an index that is no element of the array), or the
    [TypeError] of iterating [undefined]. *)
Inductive LevelResult :=
| LevelFiles (files : list VirtualCode)
| LevelUndefined
| LevelTypeError.

(** Lines 171-181: [nextLevel] filled by the two nested [for] loops. *)
Definition nextLevelOf context (sourceFileUri : URI) (files : list VirtualCode)
    : list VirtualCode :=
  foldl (λ nextLevel file,
           match embeddedCodes file with
           | Some codes =>
               foldl (λ nextLevel embedded,
                        if negb (isDisabledUri context
                                   (encodeEmbeddedDocumentUri context sourceFileUri (vc_id embedded)))
                        then nextLevel ++ [embedded]
                        else nextLevel)
                     nextLevel codes
           | None => nextLevel
           end)
        [] files.

(** The [while (true)] loop of lines 165-184 over the array
    [embeddedFilesByLevel]; each round appends one level, so
    [level + 1 - length] decreases. *)
Equations? levelLoop context (sourceFileUri : URI)
    (embeddedFilesByLevel : list (list VirtualCode)) (level : Z) : LevelResult
    by wf (Z.to_nat (level + 1 - Z.of_nat (length embeddedFilesByLevel))) lt :=
  levelLoop context sourceFileUri embeddedFilesByLevel level
    with decide (Z.of_nat (length embeddedFilesByLevel) > level)%Z := {
    | left _ =>
        if decide (0 ≤ level)%Z then
          match embeddedFilesByLevel !! Z.to_nat level with
          | Some files => LevelFiles files
          | None => LevelUndefined
          end
        else LevelUndefined
    | right _ =>
        match embeddedFilesByLevel !! (length embeddedFilesByLevel - 1) with
        | Some files =>
            levelLoop context sourceFileUri
              (embeddedFilesByLevel ++ [nextLevelOf context sourceFileUri files]) level
        | None => LevelTypeError
        end }.
Proof. rewrite length_app. simpl. lia. Qed.

(** [getEmbeddedFilesByLevel] (lines 161-185); [level] is an integer. *)
Definition getEmbeddedFilesByLevel context (sourceFileUri : URI)
    (rootFile : VirtualCode) (level : Z) : LevelResult :=
  levelLoop context sourceFileUri [[rootFile]] level.

(** ** CoordinateProjector: the point projections *)

(** The default value [() => true] of the [filter] parameter. *)
Definition filterOrDefault (filter : option (CodeInformation → bool))
    : CodeInformation → bool :=
  match filter with
  | Some f => f
  | None => λ _, true
  end.

(** [function* getSourcePositions] (lines 221-225). *)
Definition getSourcePositions (docs : DocumentsAndMap) (position : Position)
    (filter : option (CodeInformation → bool)) : list Position :=
  let '(sourceDocument, embeddedDocument, map) := docs in
  (λ mapped : nat * Mapping, positionAt sourceDocument mapped.1)
    <$> getSourceOffsets map (offsetAt embeddedDocument position) (filterOrDefault filter).

(** [function* getGeneratedPositions] (lines 227-231). *)
Definition getGeneratedPositions (docs : DocumentsAndMap) (position : Position)
    (filter : option (CodeInformation → bool)) : list Position :=
  let '(sourceDocument, embeddedDocument, map) := docs in
  (λ mapped : nat * Mapping, positionAt embeddedDocument mapped.1)
    <$> getGeneratedOffsets map (offsetAt sourceDocument position) (filterOrDefault filter).

End Embedding.

Arguments SourceMap : clear implicits.
Arguments VirtualCode : clear implicits.
Arguments SourceScript : clear implicits.
Arguments DocumentsAndMap : clear implicits.
Arguments LanguageServiceContext : clear implicits.
Arguments LevelResult : clear implicits.

(** ** JavaScript values and effects *)

(** [A | null | undefined]. *)
Inductive JsVal (A : Type) :=
| JsUndefined
| JsNull
| JsValue (a : A).
Arguments JsUndefined {A}.
Arguments JsNull {A}.
Arguments JsValue {A} a.

(** How a call ends: with a value, or with a thrown error (for an awaited
    thenable: fulfilled or rejected). *)
Inductive Outcome (Err A : Type) :=
| Returned (a : A)
| Threw (err : Err).
Arguments Returned {Err A} a.
Arguments Threw {Err A} err.

(** What a loop body asks of its [for] loop. *)
Inductive Flow := Continue | Break.

(** The characters of the log message of lines 77 and 104. *)
Definition doubleQuote : string := String (Ascii.ascii_of_nat 34) EmptyString.

Definition failureMessage (pluginName : string) (pluginIndex : nat) (uri : URI) : string :=
  "Language service plugin " +:+ doubleQuote +:+ pluginName +:+ doubleQuote
    +:+ " (" +:+ pretty pluginIndex +:+ ") failed to provide document feature for "
    +:+ uri +:+ ".".

Section Dispatch.

Context {Snapshot CodeInformation Mapping : Type}.

(** [World] is whatever the plugins read and write when they are invoked,
    [Err] the values they throw, [T] the result type of the feature and [K]
    its parameter type; [truthy] is JavaScript's truthiness on [T]. *)
Context {World Err T K : Type}.
Context (truthy : T → bool).

Abbreviation DocsAndMap := (DocumentsAndMap CodeInformation Mapping).
Abbreviation Context_ := (LanguageServiceContext Snapshot CodeInformation Mapping).
Abbreviation PluginEntry := (LanguageServicePlugin * LanguageServicePluginInstance)%type.

(** The arguments of one call [worker(plugin, document, params, map)],
    with the registry index of the plugin. *)
Record Target := mkTarget {
  tg_pluginIndex : nat;
  tg_plugin : PluginEntry;
  tg_document : TextDocument;
  tg_params : K;
  tg_map : option DocsAndMap;
}.

(** The state a dispatch runs in: the plugins' world, the record of the
    worker calls made so far with how each ended (kept for the proofs: the
    code has no such record), and what [console.warn] has printed. *)
Record Run := mkRun {
  world : World;
  invoked : list (Target * Outcome Err (JsVal T));
  warned : list (string * Err);
}.

Definition M (A : Type) : Type := Run → Outcome Err A * Run.

#[export] Instance M_ret : MRet M := λ A a s, (Returned a, s).
#[export] Instance M_bind : MBind M := λ A B k m s,
  match m s with
  | (Returned a, s') => k a s'
  | (Threw err, s') => (Threw err, s')
  end.

(** The caller's [worker]: it may change the world, and it returns
    [T | null | undefined] or throws. *)
Definition Worker : Type :=
  PluginEntry → TextDocument → K → option DocsAndMap → World
  → Outcome Err (JsVal T) * World.

(** The closure [() => worker(plugin, document, params, map)], awaited. *)
Definition callWorker (worker : Worker) (target : Target) : M (JsVal T) :=
  λ s,
    let '(outcome, world') :=
      worker (tg_plugin target) (tg_document target) (tg_params target) (tg_map target)
             (world s) in
    (outcome, mkRun world' (invoked s ++ [(target, outcome)]) (warned s)).

Definition console_warn (errorMsg : string) (err : Err) (s : Run) : Run :=
  mkRun (world s) (invoked s) (warned s ++ [(errorMsg, err)]).

(** [async function safeCall] (lines 132-139): the [catch] branch falls off
    the end of the function, which is [undefined] ([None]). *)
Definition safeCall {A} (cb : M A) (errorMsg : string) : M (option A) :=
  λ s,
    match cb s with
    | (Returned a, s') => (Returned (Some a), s')
    | (Threw err, s') => (Returned None, console_warn errorMsg err s')
    end.

(** A [for (const x of xs)] loop whose body reads and writes [results]. *)
Fixpoint forOf {A S} (xs : list A) (body : A → S → M (Flow * S)) (results : S) : M S :=
  match xs with
  | [] => mret results
  | x :: rest =>
      r ← body x results;
      match r with
      | (Continue, results') => forOf rest body results'
      | (Break, results') => mret results'
      end
  end.

(** What is left of a value after a guard [if (!value) continue]. *)
Definition whenTruthy (a : T) : option T := if truthy a then Some a else None.

Definition truthyValue (value : JsVal T) : option T :=
  match value with
  | JsValue a => whenTruthy a
  | JsNull | JsUndefined => None
  end.

(** [results.length && !combineResult]. *)
Definition shortCircuit (results : list T) (combineResult : option (list T → T)) : bool :=
  match results, combineResult with
  | _ :: _, None => true
  | _, _ => false
  end.

(** [Object.entries(context.plugins)]. *)
Definition pluginEntries (context : Context_) : list (nat * PluginEntry) :=
  imap (λ pluginIndex plugin, (pluginIndex, plugin)) (plugins context).

Definition isDisabledPlugin (context : Context_) (plugin : PluginEntry) : bool :=
  bool_decide (instanceId plugin.2 ∈ disabledServicePlugins context).

Section Worker.

Context (context : Context_).
Context (worker : Worker).
Context (transformResult : T → option DocsAndMap → option T).
Context (combineResult : option (list T → T)).

(** Body of the plugin loop of the generated path (lines 66-88). *)
Definition generatedPluginBody (docs : DocsAndMap) (mappedArg : K)
    (entry : nat * PluginEntry) (results : list T) : M (Flow * list T) :=
  let '(pluginIndex, plugin) := entry in
  if isDisabledPlugin context plugin then mret (Continue, results)
  else if shortCircuit results combineResult then mret (Continue, results)
  else
    rawResult ← safeCall
      (callWorker worker (mkTarget pluginIndex plugin docs.1.2 mappedArg (Some docs)))
      (failureMessage (name plugin.1) pluginIndex (td_uri docs.1.2));
    match rawResult ≫= truthyValue with
    | None => mret (Continue, results)
    | Some rawResult =>
        match transformResult rawResult (Some docs) ≫= whenTruthy with
        | None => mret (Continue, results)
        | Some mappedResult => mret (Continue, results ++ [mappedResult])
        end
    end.

(** Body of the loop over the parameter sets (lines 60-89). *)
Definition generatedParamsBody (docs : DocsAndMap) (mappedArg : K)
    (results : list T) : M (Flow * list T) :=
  if shortCircuit results combineResult then mret (Continue, results)
  else
    results' ← forOf (pluginEntries context) (generatedPluginBody docs mappedArg) results;
    mret (Continue, results').

(** Body of the loop over the embedded documents (lines 54-90). *)
Definition generatedDocsBody (eachVirtualDocParams : DocsAndMap → list K)
    (docs : DocsAndMap) (results : list T) : M (Flow * list T) :=
  if shortCircuit results combineResult then mret (Continue, results)
  else
    results' ← forOf (eachVirtualDocParams docs) (generatedParamsBody docs) results;
    mret (Continue, results').

(** Body of the plugin loop of the other path (lines 97-120). *)
Definition realPluginBody (document : TextDocument) (params : K)
    (entry : nat * PluginEntry) (results : list T) : M (Flow * list T) :=
  let '(pluginIndex, plugin) := entry in
  if isDisabledPlugin context plugin then mret (Continue, results)
  else
    embeddedResult ← safeCall
      (callWorker worker (mkTarget pluginIndex plugin document params None))
      (failureMessage (name plugin.1) pluginIndex (td_uri document));
    match embeddedResult ≫= truthyValue with
    | None => mret (Continue, results)
    | Some embeddedResult =>
        match transformResult embeddedResult None ≫= whenTruthy with
        | None => mret (Continue, results)
        | Some result =>
            match combineResult with
            | None => mret (Break, results ++ [result])
            | Some _ => mret (Continue, results ++ [result])
            end
        end
    end.

(** Lines 50-121: the results accumulated for a resolved script. *)
Definition accumulateResults (getRealDocParams : unit → K)
    (eachVirtualDocParams : DocsAndMap → list K)
    (sourceScript : SourceScript Snapshot) : M (list T) :=
  match generated sourceScript with
  | Some root =>
      forOf (forEachEmbeddedDocument context sourceScript root)
            (generatedDocsBody eachVirtualDocParams) []
  | None =>
      let document :=
        documents_get context (ss_id sourceScript) (ss_languageId sourceScript)
                      (ss_snapshot sourceScript) in
      let params := getRealDocParams () in
      forOf (pluginEntries context) (realPluginBody document params) []
  end.

(** Lines 123-130: what is returned for the accumulated results;
    falling off the end is [undefined] ([None]). *)
Definition returnValue (results : list T) : option T :=
  match combineResult with
  | Some combine =>
      if 0 <? length results then Some (combine results)
      else if 0 <? length results then results !! 0
      else None
  | None =>
      if 0 <? length results then results !! 0 else None
  end.

End Worker.

(** [async function languageFeatureWorker] (lines 36-130). *)
Definition languageFeatureWorker (context : Context_) (uri : URI)
    (getRealDocParams : unit → K) (eachVirtualDocParams : DocsAndMap → list K)
    (worker : Worker) (transformResult : T → option DocsAndMap → option T)
    (combineResult : option (list T → T)) : M (option T) :=
  match scripts context !! uri with
  | None => mret None
  | Some sourceScript =>
      results ← accumulateResults context worker transformResult combineResult
                  getRealDocParams eachVirtualDocParams sourceScript;
      mret (returnValue combineResult results)
  end.

End Dispatch.

#[export] Existing Instance M_ret.
#[export] Existing Instance M_bind.

Section DocumentWorker.

Context {Snapshot CodeInformation Mapping World Err T : Type}.
Context (truthy : T → bool).

(** [function documentFeatureWorker] (lines 13-34): the parameter type is
    [void]; the generator yields once when [valid(map)] holds. The caller's
    [worker] takes the plugin and the document only. *)
Definition documentFeatureWorker
    (context : LanguageServiceContext Snapshot CodeInformation Mapping)
    (uri : URI)
    (valid : DocumentsAndMap CodeInformation Mapping → bool)
    (worker : LanguageServicePlugin * LanguageServicePluginInstance → TextDocument
              → World → Outcome Err (JsVal T) * World)
    (transformResult : T → option (DocumentsAndMap CodeInformation Mapping) → option T)
    (combineResult : option (list T → T))
    : M (World := World) (Err := Err) (T := T) (K := unit)
        (CodeInformation := CodeInformation) (Mapping := Mapping) (option T) :=
  languageFeatureWorker truthy context uri
    (λ _, ())
    (λ map, if valid map then [()] else [])
    (λ plugin document _ _, worker plugin document)
    transformResult
    combineResult.

End DocumentWorker.

(** ** Notions the properties are stated with *)

Section Notions.

Context {Snapshot CodeInformation Mapping : Type}.

Abbreviation VCode := (VirtualCode Snapshot).
Abbreviation Ctx := (LanguageServiceContext Snapshot CodeInformation Mapping).

(** [subnode node root]: [node] is [root] or lies below it. *)
Inductive subnode : VCode → VCode → Prop :=
| subnode_here root : subnode root root
| subnode_below node child root :
    child ∈ children root → subnode node child → subnode node root.

(** The spec's post-order on the nodes: every descendant first, children
    in their declared order, then the node itself. *)
Fixpoint postOrder (node : VCode) : list VCode :=
  match embeddedCodes node with
  | Some codes => flat_map postOrder codes
  | None => []
  end ++ [node].

(** A node's own emission: nothing when its encoded identity is disabled. *)
Definition ownDocument (context : Ctx) (sourceScript : SourceScript Snapshot)
    (node : VCode) : list (DocumentsAndMap CodeInformation Mapping) :=
  if isDisabledUri context
       (encodeEmbeddedDocumentUri context (ss_id sourceScript) (vc_id node))
  then [] else [documentsOf context sourceScript node].

(** The spec's levels: level 0 is the root alone, level [k+1] is the
    concatenation, over the nodes of level [k] in order, of their children
    whose encoded identity is not disabled. *)
Definition enabledChildren (context : Ctx) (sourceFileUri : URI) (node : VCode)
    : list VCode :=
  filter (λ embedded,
            encodeEmbeddedDocumentUri context sourceFileUri (vc_id embedded)
              ∉ disabledEmbeddedDocumentUris context)
         (children node).

Fixpoint levelsOf (context : Ctx) (sourceFileUri : URI) (root : VCode) (k : nat)
    : list VCode :=
  match k with
  | 0 => [root]
  | S k' => flat_map (enabledChildren context sourceFileUri)
              (levelsOf context sourceFileUri root k')
  end.

(** Invariant of the loop of [getEmbeddedFilesByLevel]: the array holds
    the levels computed so far. *)
Definition holdsLevels (context : Ctx) (sourceFileUri : URI) (root : VCode)
    (embeddedFilesByLevel : list (list VCode)) : Prop :=
  embeddedFilesByLevel ≠ []
  ∧ ∀ i files, embeddedFilesByLevel !! i = Some files →
      files = levelsOf context sourceFileUri root i.

End Notions.

Section DispatchNotions.

Context {Snapshot CodeInformation Mapping World Err T K : Type}.
Context (truthy : T → bool).

Abbreviation Ctx := (LanguageServiceContext Snapshot CodeInformation Mapping).
Abbreviation Docs := (DocumentsAndMap CodeInformation Mapping).
Abbreviation Invocation :=
  (Target (CodeInformation := CodeInformation) (Mapping := Mapping) (K := K)
   * Outcome Err (JsVal T))%type.

(** The plugins of the registry that are not disabled, with their index. *)
Definition enabledEntries (context : Ctx)
    : list (nat * (LanguageServicePlugin * LanguageServicePluginInstance)) :=
  filter (λ entry, instanceId entry.2.2 ∉ disabledServicePlugins context)
         (pluginEntries context).

(** The worker calls a dispatch can make for a script, in the order the
    loops reach them: document by document in the walker's order, parameter
    set by parameter set, plugin by plugin in registration order; for a
    script without generated code, plugin by plugin on its one document. *)
Definition candidates (context : Ctx) (sourceScript : SourceScript Snapshot)
    (getRealDocParams : unit → K) (eachVirtualDocParams : Docs → list K)
    : list Target :=
  match generated sourceScript with
  | Some root =>
      docs ← forEachEmbeddedDocument context sourceScript root;
      mappedArg ← eachVirtualDocParams docs;
      (λ entry, mkTarget entry.1 entry.2 docs.1.2 mappedArg (Some docs))
        <$> enabledEntries context
  | None =>
      (λ entry,
         mkTarget entry.1 entry.2
           (documents_get context (ss_id sourceScript) (ss_languageId sourceScript)
                          (ss_snapshot sourceScript))
           (getRealDocParams ()) None)
        <$> enabledEntries context
  end.

(** The result a recorded worker call contributes: its value when the
    call returned a truthy value whose projection is truthy too. *)
Definition accepted (transformResult : T → option Docs → option T)
    (invocation : Invocation) : option T :=
  match invocation.2 with
  | Returned value =>
      rawResult ← truthyValue truthy value;
      transformResult rawResult (tg_map invocation.1) ≫= whenTruthy truthy
  | Threw _ => None
  end.

(** A worker that returns [undefined] where the given one throws. *)
Definition quiet (worker : Worker (World := World) (Err := Err) (T := T) (K := K)
                             (CodeInformation := CodeInformation) (Mapping := Mapping))
    : Worker (World := World) (Err := Err) (T := T) (K := K)
             (CodeInformation := CodeInformation) (Mapping := Mapping) :=
  λ plugin document params map w,
    match worker plugin document params map w with
    | (Returned value, w') => (Returned value, w')
    | (Threw _, w') => (Returned JsUndefined, w')
    end.

Abbreviation Work := (Worker (World := World) (Err := Err) (T := T) (K := K)
                        (CodeInformation := CodeInformation) (Mapping := Mapping)).
Abbreviation Comp := (M (World := World) (Err := Err) (T := T) (K := K)
                        (CodeInformation := CodeInformation) (Mapping := Mapping)).
Abbreviation State := (Run (World := World) (Err := Err) (T := T) (K := K)
                        (CodeInformation := CodeInformation) (Mapping := Mapping)).

(** One guarded worker call and the result it contributes. *)
Definition attempt (worker : Work) (transformResult : T → option Docs → option T)
    (target : Target) : Comp (option T) :=
  safeCall (callWorker worker target)
    (failureMessage (name (tg_plugin target).1) (tg_pluginIndex target)
                    (td_uri (tg_document target)))
  ≫= λ rawResult : option (JsVal T),
    mret ((rawResult ≫= truthyValue truthy)
            ≫= λ rawResult, transformResult rawResult (tg_map target) ≫= whenTruthy truthy).

(** The spec's short-circuit rule on a list of candidate calls: try them in
    order and stop at the first that contributes a result. *)
Fixpoint firstWins (worker : Work) (transformResult : T → option Docs → option T)
    (targets : list Target) : Comp (list T) :=
  match targets with
  | [] => mret []
  | target :: rest =>
      attempt worker transformResult target ≫= λ r : option T,
      match r with
      | Some result => mret [result]
      | None => firstWins worker transformResult rest
      end
  end.

(** Two runs that differ at most in what was logged and in how the
    recorded calls ended; the second has logged [log]. *)
Definition sameDispatch (log : list (string * Err)) (s1 s2 : State) : Prop :=
  world s1 = world s2 ∧ (invoked s1).*1 = (invoked s2).*1 ∧ warned s2 = log.

(** Two computations that, from such runs, both return, with the same
    value, in such runs. *)
Definition simulates {A} (log : list (string * Err)) (m1 m2 : Comp A) : Prop :=
  ∀ s1 s2, sameDispatch log s1 s2 →
    ∃ a s1' s2', m1 s1 = (Returned a, s1') ∧ m2 s2 = (Returned a, s2')
                 ∧ sameDispatch log s1' s2'.

End DispatchNotions.

(** A [TextDocument] over a text without line breaks, as the text-document
    library answers for it: [positionAt] clamps the offset to the text, and
    [offsetAt] clamps the character to the one line and takes any later line
    for the end of the text. *)
Definition singleLineDocument (uri languageId text : string) : TextDocument :=
  {| td_uri := uri;
     td_languageId := languageId;
     offsetAt := λ position,
       if line position =? 0 then character position `min` String.length text
       else String.length text;
     positionAt := λ offset, mkPosition 0 (offset `min` String.length text) |}.

(** ** A concrete service, for the examples *)

Module Example.

(** JavaScript's truthiness on strings: only the empty string is falsy. *)
Definition truthyString (s : string) : bool :=
  match s with
  | EmptyString => false
  | String _ _ => true
  end.

(** A component file with a script block, which itself embeds a code, and
    a style block: three levels. *)
Definition inner : VirtualCode string :=
  mkVirtualCode "script_0_inner" "javascript" "x" (Some []).
Definition script : VirtualCode string :=
  mkVirtualCode "script_0" "typescript" "let x" (Some [inner]).
Definition style : VirtualCode string :=
  mkVirtualCode "style_0" "css" ".a{}" None.
Definition root : VirtualCode string :=
  mkVirtualCode "root" "html" "<template/>" (Some [script; style]).

Definition componentUri : string := "file:///app.vue".
Definition plainUri : string := "file:///main.ts".

Definition component : SourceScript string :=
  mkSourceScript componentUri "vue" "<script/>" (Some root).
Definition plain : SourceScript string :=
  mkSourceScript plainUri "typescript" "let y" None.

Definition encode (sourceId : string) (embeddedId : string) : string :=
  sourceId +:+ "?embedded=" +:+ embeddedId.

(** A map that relates every offset to itself. *)
Definition identityMap : SourceMap unit unit :=
  mkSourceMap (λ offset _, [(offset, ())]) (λ offset _, [(offset, ())]).

Definition cssPlugin := (mkPlugin "css", mkInstance 0).
Definition tsPlugin := (mkPlugin "typescript", mkInstance 1).
Definition emmetPlugin := (mkPlugin "emmet", mkInstance 2).

(** The script block's own document is disabled, and so is the third
    plugin. *)
Definition context : LanguageServiceContext string unit unit :=
  {| scripts := {[ componentUri := component; plainUri := plain ]};
     maps_get := λ _ _, identityMap;
     documents_get := singleLineDocument;
     plugins := [cssPlugin; tsPlugin; emmetPlugin];
     disabledServicePlugins := {[ 2 ]};
     disabledEmbeddedDocumentUris := {[ encode componentUri "script_0" ]};
     encodeEmbeddedDocumentUri := encode |}.

(** The world counts the worker calls. The css plugin answers on css
    documents and returns [null] elsewhere; the typescript plugin throws;
    any other plugin returns [undefined]. *)
Definition worker : Worker (World := nat) (Err := string) (T := string) (K := nat)
                           (CodeInformation := unit) (Mapping := unit) :=
  λ plugin document params map calls,
    if String.eqb (name plugin.1) "css" then
      if String.eqb (td_languageId document) "css"
      then (Returned (JsValue "color"), S calls)
      else (Returned JsNull, S calls)
    else if String.eqb (name plugin.1) "typescript" then (Threw "boom", S calls)
    else (Returned JsUndefined, S calls).

(** A worker whose answer is the empty string: a value that is neither
    [null] nor [undefined], and falsy. *)
Definition emptyAnswer : Worker (World := nat) (Err := string) (T := string) (K := nat)
                                (CodeInformation := unit) (Mapping := unit) :=
  λ plugin document params map calls, (Returned (JsValue EmptyString), S calls).

Definition keep (result : string) (map : option (DocumentsAndMap unit unit))
    : option string := Some result.

(** A projection that yields a non-empty string for every result. *)
Definition bracket (result : string) (map : option (DocumentsAndMap unit unit))
    : option string := Some ("[" +:+ result +:+ "]").

Definition start : Run (World := nat) (Err := string) (T := string) (K := nat)
                       (CodeInformation := unit) (Mapping := unit) :=
  mkRun 0 [] [].

Definition styleDocs : DocumentsAndMap unit unit :=
  documentsOf context component style.

(** A source text of two characters under a map, left from before an
    edit, that relates generated offset 3 and source offset 5, one to one. *)
Definition staleMap : SourceMap unit unit :=
  mkSourceMap (λ offset _, if offset =? 3 then [(5, ())] else [])
              (λ offset _, if offset =? 5 then [(3, ())] else []).
Definition staleDocs : DocumentsAndMap unit unit :=
  (singleLineDocument "file:///app.vue" "vue" "ab",
   singleLineDocument "file:///app.vue?embedded=script_0" "typescript" "let x = 1",
   staleMap).

Definition identityDocs : DocumentsAndMap unit unit :=
  (singleLineDocument "file:///app.vue" "vue" "let x = 1",
   singleLineDocument "file:///app.vue?embedded=script_0" "typescript" "let x = 1",
   identityMap).

End Example.

(** ** Further notions for the dispatcher *)

(** Whether a call ended with a thrown error. *)
Definition threw {Err A} (outcome : Outcome Err A) : bool :=
  match outcome with
  | Threw _ => true
  | Returned _ => false
  end.

Section DispatchTraceNotions.

Context {Snapshot CodeInformation Mapping World Err T K : Type}.
Context (truthy : T → bool).

Abbreviation TDocs := (DocumentsAndMap CodeInformation Mapping).
Abbreviation TCall :=
  (Target (CodeInformation := CodeInformation) (Mapping := Mapping) (K := K)
   * Outcome Err (JsVal T))%type.
Abbreviation TWork := (Worker (World := World) (Err := Err) (T := T) (K := K)
                         (CodeInformation := CodeInformation) (Mapping := Mapping)).
Abbreviation TComp := (M (World := World) (Err := Err) (T := T) (K := K)
                         (CodeInformation := CodeInformation) (Mapping := Mapping)).

(** What [console.warn] is given for a recorded worker call: the message
    of lines 77 and 104 with the error, when the call threw. *)
Definition warningOf (call : TCall) : list (string * Err) :=
  match call.2 with
  | Threw err =>
      [(failureMessage (name (tg_plugin call.1).1) (tg_pluginIndex call.1)
                       (td_uri (tg_document call.1)), err)]
  | Returned _ => []
  end.

(** Every candidate call made in order, each contribution pushed: what the
    loops do when a combiner is supplied. *)
Fixpoint collectAll (worker : TWork) (transformResult : T → option TDocs → option T)
    (targets : list Target) (results : list T) : TComp (list T) :=
  match targets with
  | [] => mret results
  | target :: rest =>
      attempt truthy worker transformResult target ≫= λ r : option T,
      collectAll worker transformResult rest (results ++ option_list r)
  end.

End DispatchTraceNotions.

(** ** Range projections and linked positions *)

(** [vscode.Range]: its fields are [start] and [end]. *)
Record Range := mkRange { range_start : Position; range_end : Position }.

(** [LinkedCodeMap] of @volar/language-core, as the one query
    [getLinkedCodePositions] calls. *)
Record LinkedCodeMap := mkLinkedCodeMap { getLinkedOffsets : nat → list nat }.

(** [function* getLinkedCodePositions] (lines 233-237). *)
Definition getLinkedCodePositions (document : TextDocument) (linkedMap : LinkedCodeMap)
    (posotion : Position) : list Position :=
  (λ linkedPosition, positionAt document linkedPosition)
    <$> getLinkedOffsets linkedMap (offsetAt document posotion).

Section RangeProjection.

Context {CodeInformation Mapping : Type}.

(** The range queries [map.getSourceStartEnd] and [map.getGeneratedStartEnd]
    of the source map, which belong to an external library: they take the two
    offsets, the flag the workers always pass as [true], and the optional
    filter as it was given; they yield [[start, end]] pairs. *)
Context (getSourceStartEnd getGeneratedStartEnd :
           SourceMap CodeInformation Mapping → nat → nat → bool
           → option (CodeInformation → bool) → list (nat * nat)).

(** [function* getSourceRanges] (lines 199-208). *)
Definition getSourceRanges (docs : DocumentsAndMap CodeInformation Mapping)
    (range : Range) (filter : option (CodeInformation → bool)) : list Range :=
  let '(sourceDocument, embeddedDocument, map) := docs in
  (λ mapped : nat * nat,
     mkRange (positionAt sourceDocument mapped.1) (positionAt sourceDocument mapped.2))
    <$> getSourceStartEnd map
          (offsetAt embeddedDocument (range_start range))
          (offsetAt embeddedDocument (range_end range))
          true filter.

(** [function* getGeneratedRanges] (lines 210-219). *)
Definition getGeneratedRanges (docs : DocumentsAndMap CodeInformation Mapping)
    (range : Range) (filter : option (CodeInformation → bool)) : list Range :=
  let '(sourceDocument, embeddedDocument, map) := docs in
  (λ mapped : nat * nat,
     mkRange (positionAt embeddedDocument mapped.1) (positionAt embeddedDocument mapped.2))
    <$> getGeneratedStartEnd map
          (offsetAt sourceDocument (range_start range))
          (offsetAt sourceDocument (range_end range))
          true filter.

(** [function getSourceRange] (lines 187-191): the loop returns at its
    first round; with nothing to iterate the function falls off its end. *)
Definition getSourceRange (docs : DocumentsAndMap CodeInformation Mapping)
    (range : Range) (filter : option (CodeInformation → bool)) : option Range :=
  match getSourceRanges docs range filter with
  | result :: _ => Some result
  | [] => None
  end.

(** [function getGeneratedRange] (lines 193-197). *)
Definition getGeneratedRange (docs : DocumentsAndMap CodeInformation Mapping)
    (range : Range) (filter : option (CodeInformation → bool)) : option Range :=
  match getGeneratedRanges docs range filter with
  | result :: _ => Some result
  | [] => None
  end.

End RangeProjection.

(** ** The height of a tree of virtual codes *)

Section Height.

Context {Snapshot : Type}.

(** The number of levels below a node. *)
Fixpoint height (node : VirtualCode Snapshot) : nat :=
  match embeddedCodes node with
  | Some codes => foldr (λ code deepest, S (height code) `max` deepest) 0 codes
  | None => 0
  end.

End Height.

(** * The npm file system over a CDN

    A shallow embedding of parts of [packages/monaco/lib/ata.ts]. A
    JavaScript string is read as a Rocq string, one character per code unit. *)

(** ** String operations of JavaScript *)

(** The characters [/], [@] and [_]. *)
Definition slash : Ascii.ascii := Eval cbv in Ascii.ascii_of_nat 47.
Definition atSign : Ascii.ascii := Eval cbv in Ascii.ascii_of_nat 64.
Definition underscore : Ascii.ascii := Eval cbv in Ascii.ascii_of_nat 95.

(** [s.startsWith(prefix)]. *)
Fixpoint startsWith (s prefix : string) : bool :=
  match prefix, s with
  | EmptyString, _ => true
  | String c prefix', String d s' => Ascii.eqb c d && startsWith s' prefix'
  | String _ _, EmptyString => false
  end.

(** [s.slice(n)] and [s.substring(n)], for an index [n] that is not negative. *)
Fixpoint sliceFrom (n : nat) (s : string) : string :=
  match n, s with
  | 0, _ => s
  | S n', String _ s' => sliceFrom n' s'
  | S _, EmptyString => EmptyString
  end.

(** [s.substring(0, n)], for an index [n] that is not negative. *)
Fixpoint substringTo (n : nat) (s : string) : string :=
  match n, s with
  | 0, _ => EmptyString
  | S n', String c s' => String c (substringTo n' s')
  | S _, EmptyString => EmptyString
  end.

(** [s.endsWith(suffix)]. *)
Definition endsWith (s suffix : string) : bool :=
  (String.length suffix <=? String.length s)
  && String.eqb (sliceFrom (String.length s - String.length suffix) s) suffix.

(** [s.split(separator)] for a separator of one character: never an empty
    array. *)
Fixpoint splitOn (separator : Ascii.ascii) (s : string) : list string :=
  match s with
  | EmptyString => [EmptyString]
  | String c s' =>
      if Ascii.eqb c separator then EmptyString :: splitOn separator s'
      else
        match splitOn separator s' with
        | part :: parts => String c part :: parts
        | [] => [String c EmptyString]
        end
  end.

(** [s.lastIndexOf(c)] for a character [c]; [None] is JavaScript's [-1]. *)
Fixpoint lastIndexOf (c : Ascii.ascii) (s : string) : option nat :=
  match s with
  | EmptyString => None
  | String d s' =>
      match lastIndexOf c s' with
      | Some i => Some (S i)
      | None => if Ascii.eqb d c then Some 0 else None
      end
  end.

(** [s.indexOf(pattern)]; [None] is JavaScript's [-1]. *)
Fixpoint indexOf (pattern s : string) : option nat :=
  if startsWith s pattern then Some 0
  else
    match s with
    | EmptyString => None
    | String _ s' => S <$> indexOf pattern s'
    end.

(** [s.replace(pattern, replacement)] for a string pattern: the first
    occurrence only. *)
Definition replaceFirst (pattern replacement s : string) : string :=
  match indexOf pattern s with
  | Some i =>
      substringTo i s +:+ replacement +:+ sliceFrom (i + String.length pattern) s
  | None => s
  end.

(** JavaScript's truthiness of a string. *)
Definition nonEmpty (s : string) : bool :=
  match s with
  | EmptyString => false
  | String _ _ => true
  end.

(** The inverse of [split]: [parts.join(separator)]. *)
Fixpoint joinWith (separator : Ascii.ascii) (parts : list string) : string :=
  match parts with
  | [] => EmptyString
  | [part] => part
  | part :: rest => part +:+ String separator (joinWith separator rest)
  end.

(** ** Package names *)

(** The default value of the parameter [getCdnPath] (lines 8-15), on
    [uri.path]. *)
Definition defaultCdnPath (path : string) : option string :=
  if String.eqb path "/node_modules" then Some EmptyString
  else if startsWith path "/node_modules/"
       then Some (sliceFrom (String.length "/node_modules") path)
       else None.

(** [function resolvePackageName] (lines 203-226). The answer of
    [getPackageVersion] is dropped by the code. *)
Definition resolvePackageName (getPackageVersion : option (string → option string))
    (path : string) : option (string * string * option string) :=
  let parts := splitOn slash path in
  match parts !! 0 with
  | None => None
  | Some modName =>
      let scoped :=
        if startsWith modName "@" then
          match parts !! 1 with
          | Some part1 =>
              if nonEmpty part1 then Some (modName +:+ "/" +:+ part1) else None
          | None => None
          end
        else Some modName in
      match scoped with
      | None => None
      | Some modName =>
          let '(pkgName, version) :=
            match lastIndexOf atSign modName with
            | Some i =>
                if 1 <=? i
                then (substringTo i modName, Some (sliceFrom (i + 1) modName))
                else (modName, None)
            | None => (modName, None)
            end in
          let _ :=
            match version, getPackageVersion with
            | Some (String _ _), _ | _, None => None
            | _, Some getVersion => getVersion pkgName
            end in
          Some (modName, pkgName, version)
      end
  end.

(** The original package of a [@types/] package (lines 178-181). *)
Definition originalPackageName (pkgName : string) : string :=
  let originalPkgName := sliceFrom (String.length "@types/") pkgName in
  match indexOf "__" originalPkgName with
  | Some _ => "@" +:+ replaceFirst "__" "/" originalPkgName
  | None => originalPkgName
  end.

(** ** The file system object *)

(** [FileStat]; [fs_type] is 1 for a file and 2 for a directory. *)
Record FileStat := mkFileStat {
  fs_type : nat;
  fs_size : Z;
  fs_ctime : Z;
  fs_mtime : Z;
}.

Section NpmFileSystem.

(** [Net] is everything the inner operations read and write: the caches and
    the network. They are taken as given here. *)
Context {Uri Net Err : Type}.

Definition Fs (A : Type) : Type := Net → Outcome Err A * Net.

Context (getCdnPath : Uri → option string).
Context (_stat : string → Fs (option FileStat)).
Context (_readFile : string → Fs (option string)).
Context (_readDirectory : string → Fs (list (string * nat))).

(** The method [stat] of the returned object (lines 28-42). *)
Definition stat (uri : Uri) : Fs (option FileStat) :=
  λ net,
    match getCdnPath uri with
    | None => (Returned None, net)
    | Some path =>
        if String.eqb path EmptyString
        then (Returned (Some (mkFileStat 2 (-1) (-1) (-1))), net)
        else _stat path net
    end.

(** The method [readFile] (lines 43-49). *)
Definition readFile (uri : Uri) : Fs (option string) :=
  λ net,
    match getCdnPath uri with
    | None => (Returned None, net)
    | Some path => _readFile path net
    end.

(** The method [readDirectory] (lines 50-56). *)
Definition readDirectory (uri : Uri) : Fs (list (string * nat)) :=
  λ net,
    match getCdnPath uri with
    | None => (Returned [], net)
    | Some path => _readDirectory path net
    end.

End NpmFileSystem.

(** ** Fetching with a cache *)

(** What [fetch(url)] gives: a thrown error, or a response with its status
    and what its [text()] and [json()] resolve to ([None] when they reject). *)
Inductive FetchResponse (Json : Type) :=
| NetworkError
| Responded (status : nat) (text : option string) (json : option Json).
Arguments NetworkError {Json}.
Arguments Responded {Json} status text json.

(** The two module-level caches, with the value each stored promise
    resolves to; the requests sent so far (kept for the proofs); and the
    state of the remote side. Calls are taken to be awaited one after another. *)
Record Web (Json Remote : Type) := mkWeb {
  textCache : gmap string (option string);
  jsonCache : gmap string (option Json);
  requested : list string;
  remote : Remote;
}.
Arguments mkWeb {Json Remote} textCache jsonCache requested remote.
Arguments textCache {Json Remote} w.
Arguments jsonCache {Json Remote} w.
Arguments requested {Json Remote} w.
Arguments remote {Json Remote} w.

Section Fetch.

Context {Json Remote : Type}.
Context (fetch : string → Remote → FetchResponse Json * Remote).

(** [async function fetchText] (lines 229-243). *)
Definition fetchText (url : string) (web : Web Json Remote)
    : option string * Web Json Remote :=
  match textCache web !! url with
  | Some cached => (cached, web)
  | None =>
      let '(response, remote') := fetch url (remote web) in
      let text :=
        match response with
        | Responded status text _ => if status =? 200 then text else None
        | NetworkError => None
        end in
      (text,
       mkWeb (<[url := text]> (textCache web)) (jsonCache web)
             (requested web ++ [url]) remote')
  end.

(** [async function fetchJson] (lines 245-259). *)
Definition fetchJson (url : string) (web : Web Json Remote)
    : option Json * Web Json Remote :=
  match jsonCache web !! url with
  | Some cached => (cached, web)
  | None =>
      let '(response, remote') := fetch url (remote web) in
      let json :=
        match response with
        | Responded status _ json => if status =? 200 then json else None
        | NetworkError => None
        end in
      (json,
       mkWeb (textCache web) (<[url := json]> (jsonCache web))
             (requested web ++ [url]) remote')
  end.

End Fetch.

(** ** Listing a directory of a package *)

(** [[...new Set(dirs)]]: each value once, in the order of first
    occurrence. *)
Definition uniqueInOrder (values : list string) : list string :=
  foldl (λ seen value, if decide (value ∈ seen) then seen else seen ++ [value])
        [] values.

(** Lines 103-114 of [_readDirectory]: the entries of the directory
    [dirPath] among the file names of the package. *)
Definition directoryEntries (names : list string) (dirPath : string)
    : list (string * nat) :=
  let files :=
    (λ name, sliceFrom (String.length dirPath + 1) name)
      <$> filter (λ name,
                    substringTo (default 0 (lastIndexOf slash name)) name = dirPath)
                 names in
  let dirs :=
    (λ name,
       default EmptyString
         (splitOn slash (sliceFrom (String.length dirPath + 1) name) !! 0))
      <$> filter (λ name,
                    startsWith name (dirPath +:+ "/") = true
                    ∧ 2 ≤ length (splitOn slash
                                    (sliceFrom (String.length dirPath + 1) name)))
                 names in
  ((λ f, (f, 1)) <$> files) ++ ((λ f, (f, 2)) <$> uniqueInOrder dirs).

(** * Auto insertion: a caller of the dispatcher

    The function [register] that follows the feature workers in the same
    source file (lines 244-290). It is written against a map object with the
    methods [toGeneratedPositions], [toGeneratedRange], [toSourceRange] and
    [map.getGeneratedOffset], against the filter [isAutoInsertEnabled], a
    cancellation token and the plugins' optional method
    [provideAutoInsertionEdit]; none of these is among the sources, and all
    are taken as given. *)

(** [vscode.TextEdit]. *)
Record TextEdit := mkTextEdit { te_range : Range; te_newText : string }.

(** The result of auto insertion: [string | vscode.TextEdit]. *)
Inductive AutoInsertItem :=
| Snippet (text : string)
| Edit (edit : TextEdit).

(** JavaScript's truthiness on these results: of the strings only the
    empty one is falsy, and an object is truthy. *)
Definition truthyItem (item : AutoInsertItem) : bool :=
  match item with
  | Snippet text => nonEmpty text
  | Edit _ => true
  end.

(** [autoInsertContext.lastChange] and the context around it. *)
Record LastChange := mkLastChange {
  lc_range : Range;
  lc_rangeOffset : nat;
  lc_rangeLength : nat;
  lc_text : string;
}.
Record AutoInsertionContext := mkAutoInsertionContext { lastChange : LastChange }.

(** The parameter object [{ position, autoInsertContext }]. *)
Record AutoInsertArg := mkAutoInsertArg {
  arg_position : Position;
  arg_autoInsertContext : AutoInsertionContext;
}.

Section AutoInsert.

Context {Snapshot CodeInformation Mapping World Err : Type}.

Abbreviation ADocs := (DocumentsAndMap CodeInformation Mapping).
Abbreviation APlugin := (LanguageServicePlugin * LanguageServicePluginInstance)%type.

Context (toGeneratedPositions : ADocs → Position → (CodeInformation → bool) → list Position).
Context (getGeneratedOffset : ADocs → nat → option (nat * Mapping)).
Context (toGeneratedRange : ADocs → Range → option Range).
Context (toSourceRange : ADocs → Range → (CodeInformation → bool) → option Range).
Context (isAutoInsertEnabled : CodeInformation → bool).
Context (isCancellationRequested : World → bool).
Context (provideAutoInsertionEdit :
           APlugin
           → option (TextDocument → Position → AutoInsertionContext → World
                     → Outcome Err (JsVal AutoInsertItem) * World)).

(** The generator passed as [eachVirtualDocParams] (lines 252-271). *)
Definition autoInsertVirtualParams (position : Position)
    (autoInsertContext : AutoInsertionContext) (map : ADocs) : list AutoInsertArg :=
  mappedPosition ← toGeneratedPositions map position isAutoInsertEnabled;
  let rangeOffset :=
    fst <$> getGeneratedOffset map (lc_rangeOffset (lastChange autoInsertContext)) in
  let range := toGeneratedRange map (lc_range (lastChange autoInsertContext)) in
  match rangeOffset, range with
  | Some rangeOffset, Some range =>
      [mkAutoInsertArg mappedPosition
         (mkAutoInsertionContext
            (mkLastChange range rangeOffset
               (lc_rangeLength (lastChange autoInsertContext))
               (lc_text (lastChange autoInsertContext))))]
  | _, _ => []
  end.

(** The worker (lines 272-277). *)
Definition autoInsertWorker
    : Worker (World := World) (Err := Err) (T := AutoInsertItem) (K := AutoInsertArg)
             (CodeInformation := CodeInformation) (Mapping := Mapping) :=
  λ service document arg _ w,
    if isCancellationRequested w then (Returned JsUndefined, w)
    else
      match provideAutoInsertionEdit service with
      | Some provide =>
          provide document (arg_position arg) (arg_autoInsertContext arg) w
      | None => (Returned JsUndefined, w)
      end.

(** The projection of a result (lines 278-287). *)
Definition autoInsertTransform (item : AutoInsertItem) (map : option ADocs)
    : option AutoInsertItem :=
  match map, item with
  | None, _ => Some item
  | Some _, Snippet _ => Some item
  | Some map, Edit edit =>
      match toSourceRange map (te_range edit) isAutoInsertEnabled with
      | Some range => Some (Edit (mkTextEdit range (te_newText edit)))
      | None => None
      end
  end.

(** The function [register] returns (lines 246-289). *)
Definition autoInsert
    (context : LanguageServiceContext Snapshot CodeInformation Mapping)
    (uri : URI) (position : Position) (autoInsertContext : AutoInsertionContext)
    : M (World := World) (Err := Err) (T := AutoInsertItem) (K := AutoInsertArg)
        (CodeInformation := CodeInformation) (Mapping := Mapping)
        (option AutoInsertItem) :=
  languageFeatureWorker truthyItem context uri
    (λ _, mkAutoInsertArg position autoInsertContext)
    (autoInsertVirtualParams position autoInsertContext)
    autoInsertWorker
    autoInsertTransform
    None.

End AutoInsert.

(** ** Concrete inputs for the further properties *)

Module Sample.

Import Example.

(** A whole-document worker that answers the language of the document it
    is given. *)
Definition languageOf
    : LanguageServicePlugin * LanguageServicePluginInstance → TextDocument → nat
      → Outcome string (JsVal string) * nat :=
  λ plugin document calls, (Returned (JsValue (td_languageId document)), S calls).

Definition isCss (docs : DocumentsAndMap unit unit) : bool :=
  String.eqb (td_languageId docs.1.2) "css".

Definition never (docs : DocumentsAndMap unit unit) : bool := false.

Definition documentStart : Run (World := nat) (Err := string) (T := string) (K := unit)
                               (CodeInformation := unit) (Mapping := unit) :=
  mkRun 0 [] [].

(** Range queries of a map that relates every range to itself. *)
Definition identityStartEnd (map : SourceMap unit unit) (startOffset endOffset : nat)
    (fallbackToAnyMatch : bool) (filter : option (unit → bool)) : list (nat * nat) :=
  [(startOffset, endOffset)].

(** Offsets 1 and 4 are linked to each other. *)
Definition linked : LinkedCodeMap :=
  mkLinkedCodeMap (λ offset, if offset =? 1 then [4] else if offset =? 4 then [1] else []).

Definition letDocument : TextDocument :=
  singleLineDocument "file:///main.ts" "typescript" "let y = y".

(** The file names of a package, as the CDN lists them. *)
Definition packageFiles : list string :=
  ["/package.json"; "/index.d.ts"; "/lib/a.d.ts"; "/lib/b.d.ts"; "/lib/deep/c.d.ts"].

(** A remote side that serves one file and counts the requests. *)
Definition serveIndex (url : string) (requests : nat) : FetchResponse string * nat :=
  if String.eqb url "https://cdn.jsdelivr.net/npm/a/index.d.ts"
  then (Responded 200 (Some "export {}") None, S requests)
  else (Responded 404 None None, S requests).

Definition offline : Web string nat := mkWeb ∅ ∅ [] 0.

(** Inner operations of the file system that count their runs. *)
Definition countingStat (path : string)
    : Fs (Net := nat) (Err := string) (option FileStat) :=
  λ runs, (Returned None, S runs).
Definition countingReadFile (path : string)
    : Fs (Net := nat) (Err := string) (option string) :=
  λ runs, (Returned None, S runs).
Definition countingReadDirectory (path : string)
    : Fs (Net := nat) (Err := string) (list (string * nat)) :=
  λ runs, (Returned [], S runs).

(** Auto insertion over maps that relate everything to itself; the css
    plugin proposes to insert a closing brace at the position. *)
Definition samePositions (docs : DocumentsAndMap unit unit) (position : Position)
    (filter : unit → bool) : list Position := [position].
Definition sameOffset (docs : DocumentsAndMap unit unit) (offset : nat)
    : option (nat * unit) := Some (offset, ()).
Definition sameRange (docs : DocumentsAndMap unit unit) (range : Range)
    : option Range := Some range.
Definition sameSourceRange (docs : DocumentsAndMap unit unit) (range : Range)
    (filter : unit → bool) : option Range := Some range.
Definition enabled (data : unit) : bool := true.

Definition closeBrace (plugin : LanguageServicePlugin * LanguageServicePluginInstance)
    : option (TextDocument → Position → AutoInsertionContext → nat
              → Outcome string (JsVal AutoInsertItem) * nat) :=
  if String.eqb (name plugin.1) "css"
  then Some (λ document position autoInsertContext calls,
               (Returned (JsValue (Edit (mkTextEdit (mkRange position position) "}"))),
                S calls))
  else None.

Definition typed : AutoInsertionContext :=
  mkAutoInsertionContext
    (mkLastChange (mkRange (mkPosition 0 2) (mkPosition 0 2)) 2 0 "{").

Definition insertStart : Run (World := nat) (Err := string) (T := AutoInsertItem)
                             (K := AutoInsertArg)
                             (CodeInformation := unit) (Mapping := unit) :=
  mkRun 0 [] [].

End Sample.

(** * Properties *)

(** ** The walker *)

Section WalkerFacts.

Context {Snapshot CodeInformation Mapping : Type}.

Implicit Types (context : LanguageServiceContext Snapshot CodeInformation Mapping)
  (sourceScript : SourceScript Snapshot)
  (current root node child : VirtualCode Snapshot).

(** Induction on a tree of virtual codes, with the hypothesis for all
    the children. *)
Lemma VirtualCode_children_ind (P : VirtualCode Snapshot → Prop) :
  (∀ current, Forall P (children current) → P current) → ∀ current, P current.
Proof.
  intros step. fix IH 1. intros [i l s codes]. apply step.
  unfold children; simpl. destruct codes as [codes|]; [|constructor].
  induction codes as [|c cs IHcs]; constructor; [apply IH | apply IHcs].
Qed.

Lemma forEachEmbeddedDocument_unfold context sourceScript current :
  forEachEmbeddedDocument context sourceScript current
  = flat_map (forEachEmbeddedDocument context sourceScript) (children current)
    ++ ownDocument context sourceScript current.
Proof.
  destruct current as [i l s codes]. unfold children, ownDocument, documentsOf.
  cbn [forEachEmbeddedDocument embeddedCodes vc_id vc_languageId vc_snapshot].
  f_equal.
  - destruct codes as [codes|]; [|done].
    induction codes as [|c cs IH]; [done|]. cbn [flat_map]. by rewrite IH.
  - by destruct (isDisabledUri _ _).
Qed.

Lemma postOrder_unfold node :
  postOrder node = flat_map postOrder (children node) ++ [node].
Proof. destruct node as [i l s [codes|]]; done. Qed.

Lemma flat_map_split {A B} (f : A → list B) (xs : list A) (x : A) :
  x ∈ xs → ∃ before after,
    xs = before ++ x :: after
    ∧ flat_map f xs = flat_map f before ++ f x ++ flat_map f after.
Proof.
  intros [before [after ->]]%list_elem_of_split. exists before, after.
  split; [done|]. by rewrite flat_map_app.
Qed.

(** The walk of a tree is the walk of the post-order list of its nodes,
    each node giving its own document or nothing. *)
Lemma walk_postOrder context sourceScript root :
  forEachEmbeddedDocument context sourceScript root
  = flat_map (ownDocument context sourceScript) (postOrder root).
Proof.
  induction root as [root IH] using VirtualCode_children_ind.
  rewrite forEachEmbeddedDocument_unfold, postOrder_unfold, flat_map_app.
  cbn [flat_map]. rewrite app_nil_r. f_equal.
  induction IH as [|c cs Hc _ IHcs]; [done|].
  cbn [flat_map]. by rewrite flat_map_app, Hc, IHcs.
Qed.

(** The post-order list of a subtree is a block of that of the tree. *)
Lemma postOrder_block node root :
  subnode node root →
  ∃ before after, postOrder root = before ++ postOrder node ++ after.
Proof.
  induction 1 as [root | node child root Hin _ (b & a & IH)].
  - exists [], []. by rewrite app_nil_r.
  - destruct (flat_map_split postOrder _ _ Hin) as (cb & ca & _ & Hsplit).
    rewrite (postOrder_unfold root), Hsplit, IH.
    exists (flat_map postOrder cb ++ b), (a ++ flat_map postOrder ca ++ [root]).
    by rewrite <- !app_assoc.
Qed.

Lemma subnode_trans node child root :
  subnode node child → subnode child root → subnode node root.
Proof.
  intros Hnc Hcr. induction Hcr as [|? ? ? Hin _ IH]; [done|].
  eapply subnode_below; [exact Hin | by apply IH].
Qed.

Lemma elem_of_postOrder node root : node ∈ postOrder root ↔ subnode node root.
Proof.
  split.
  - revert node. induction root as [root IH] using VirtualCode_children_ind.
    intros node. rewrite postOrder_unfold, elem_of_app, list_elem_of_singleton.
    intros [Hin | ->]; [|constructor].
    apply list_elem_of_In, in_flat_map in Hin as (child & Hchild & Hin).
    apply list_elem_of_In in Hchild, Hin.
    eapply subnode_below; [exact Hchild|].
    rewrite Forall_forall in IH. by apply IH.
  - intros (b & a & ->)%postOrder_block. rewrite postOrder_unfold.
    set_solver.
Qed.

Lemma elem_of_ownDocument context sourceScript node d :
  d ∈ ownDocument context sourceScript node
  ↔ (encodeEmbeddedDocumentUri context (ss_id sourceScript) (vc_id node)
       ∉ disabledEmbeddedDocumentUris context)
    ∧ d = documentsOf context sourceScript node.
Proof.
  unfold ownDocument, isDisabledUri.
  destruct (decide (encodeEmbeddedDocumentUri context (ss_id sourceScript) (vc_id node)
                      ∈ disabledEmbeddedDocumentUris context)) as [Hin | Hout].
  - rewrite bool_decide_eq_true_2 by done. split.
    + intros Hd. inversion Hd.
    + by intros [? _].
  - rewrite bool_decide_eq_false_2 by done. rewrite list_elem_of_singleton.
    tauto.
Qed.

(** What the walker emits: the documents of the enabled nodes of the tree. *)
Lemma elem_of_walk context sourceScript root d :
  d ∈ forEachEmbeddedDocument context sourceScript root
  ↔ ∃ node, subnode node root
      ∧ (encodeEmbeddedDocumentUri context (ss_id sourceScript) (vc_id node)
           ∉ disabledEmbeddedDocumentUris context)
      ∧ d = documentsOf context sourceScript node.
Proof.
  rewrite walk_postOrder, list_elem_of_In, in_flat_map.
  split.
  - intros (node & Hin%list_elem_of_In%elem_of_postOrder
                 & Hd%list_elem_of_In%elem_of_ownDocument). eauto.
  - intros (node & Hsub & Hen & ->). exists node.
    rewrite <- !list_elem_of_In, elem_of_postOrder, elem_of_ownDocument. eauto.
Qed.

(** C2. The walker emits in post-order. The walk of a tree is the
    post-order list of its nodes (descendants first, children in declared
    order, the node last) with each node replaced by its own emission; and
    for every node of the tree, the walk contains, as one block, the walks of
    the node's children in their declared order, immediately followed by
    the node's own emission. *)
Theorem walker_post_order context sourceScript root :
  forEachEmbeddedDocument context sourceScript root
  = flat_map (ownDocument context sourceScript) (postOrder root)
  ∧ ∀ node, subnode node root →
      ∃ before after,
        postOrder root
        = before ++ flat_map postOrder (children node) ++ [node] ++ after
        ∧ forEachEmbeddedDocument context sourceScript root
          = flat_map (ownDocument context sourceScript) before
            ++ flat_map (forEachEmbeddedDocument context sourceScript) (children node)
            ++ ownDocument context sourceScript node
            ++ flat_map (ownDocument context sourceScript) after.
Proof.
  split; [apply walk_postOrder|].
  intros node (before & after & Hblock)%postOrder_block.
  exists before, after. rewrite (postOrder_unfold node) in Hblock.
  split; [by rewrite Hblock, <- !app_assoc|].
  rewrite walk_postOrder, Hblock, !flat_map_app.
  rewrite <- !app_assoc. f_equal. f_equal.
  - clear Hblock. induction (children node) as [|c cs IH]; [done|].
    cbn [flat_map]. by rewrite flat_map_app, IH, walk_postOrder.
  - f_equal. cbn [flat_map]. by rewrite app_nil_r.
Qed.

(** The walk of a subtree is a block of the walk of the tree. *)
Lemma walk_block context sourceScript node root :
  subnode node root →
  ∃ before after,
    forEachEmbeddedDocument context sourceScript root
    = before ++ forEachEmbeddedDocument context sourceScript node ++ after.
Proof.
  intros (b & a & Hblock)%postOrder_block.
  exists (flat_map (ownDocument context sourceScript) b),
         (flat_map (ownDocument context sourceScript) a).
  by rewrite !walk_postOrder, Hblock, !flat_map_app.
Qed.

(** C3. A node whose encoded identity is in the disabled set emits
    nothing of its own: its walk is exactly the walks of its children, and
    that block is part of the walk of the whole tree; every emitted document
    belongs to a node whose identity is not disabled; and every descendant of
    the disabled node whose own identity is not disabled is emitted. *)
Theorem disabled_node_not_emitted_descendants_walked context sourceScript root node :
  subnode node root →
  encodeEmbeddedDocumentUri context (ss_id sourceScript) (vc_id node)
    ∈ disabledEmbeddedDocumentUris context →
  forEachEmbeddedDocument context sourceScript node
  = flat_map (forEachEmbeddedDocument context sourceScript) (children node)
  ∧ (∃ before after,
       forEachEmbeddedDocument context sourceScript root
       = before
         ++ flat_map (forEachEmbeddedDocument context sourceScript) (children node)
         ++ after)
  ∧ (∀ d, d ∈ forEachEmbeddedDocument context sourceScript root →
       ∃ emitted, subnode emitted root
         ∧ (encodeEmbeddedDocumentUri context (ss_id sourceScript) (vc_id emitted)
              ∉ disabledEmbeddedDocumentUris context)
         ∧ d = documentsOf context sourceScript emitted)
  ∧ (∀ descendant, subnode descendant node →
       encodeEmbeddedDocumentUri context (ss_id sourceScript) (vc_id descendant)
         ∉ disabledEmbeddedDocumentUris context →
       documentsOf context sourceScript descendant
         ∈ forEachEmbeddedDocument context sourceScript root).
Proof.
  intros Hsub Hdis.
  assert (Hnode : forEachEmbeddedDocument context sourceScript node
                  = flat_map (forEachEmbeddedDocument context sourceScript) (children node)).
  { rewrite forEachEmbeddedDocument_unfold at 1. unfold ownDocument, isDisabledUri.
    rewrite bool_decide_eq_true_2 by done. apply app_nil_r. }
  split; [exact Hnode|]. split; [|split].
  - destruct (walk_block context sourceScript _ _ Hsub) as (b & a & Hblock).
    exists b, a. by rewrite Hblock, Hnode.
  - intros d Hd. by apply elem_of_walk.
  - intros descendant Hdesc Hen. apply elem_of_walk.
    exists descendant. eauto using subnode_trans.
Qed.

(** The own emissions of a list of nodes: the documents of those whose
    encoded identity is not disabled. *)
Lemma ownDocument_filter context sourceScript (nodes : list (VirtualCode Snapshot)) :
  flat_map (ownDocument context sourceScript) nodes
  = documentsOf context sourceScript
      <$> filter (λ node,
                    encodeEmbeddedDocumentUri context (ss_id sourceScript) (vc_id node)
                      ∉ disabledEmbeddedDocumentUris context) nodes.
Proof.
  induction nodes as [|node nodes IH]; [done|].
  cbn [flat_map]. rewrite IH. unfold ownDocument, isDisabledUri.
  destruct (decide (encodeEmbeddedDocumentUri context (ss_id sourceScript) (vc_id node)
                      ∈ disabledEmbeddedDocumentUris context)) as [Hin | Hout].
  - rewrite bool_decide_eq_true_2 by done.
    by rewrite filter_cons_False by (intros Hn; by apply Hn).
  - rewrite bool_decide_eq_false_2 by done.
    by rewrite filter_cons_True by done.
Qed.

(** C10. The walker emits, in post-order, one tuple for each node of the
    tree whose encoded identity is not disabled, and the tuple of a node is:
    the cached document for the source script's URI with the node's language
    id and the node's snapshot; the cached document for the encoded
    embedded-document URI with the same language id and snapshot; and the map
    of the node for the source script. So a tuple is emitted exactly when it
    is that of such a node. *)
Theorem emitted_tuple_components context sourceScript root :
  forEachEmbeddedDocument context sourceScript root
  = (λ node,
       (documents_get context (ss_id sourceScript)
          (vc_languageId node) (vc_snapshot node),
        documents_get context
          (encodeEmbeddedDocumentUri context (ss_id sourceScript) (vc_id node))
          (vc_languageId node) (vc_snapshot node),
        maps_get context node sourceScript))
    <$> filter (λ node,
                  encodeEmbeddedDocumentUri context (ss_id sourceScript) (vc_id node)
                    ∉ disabledEmbeddedDocumentUris context)
               (postOrder root)
  ∧ ∀ d,
      d ∈ forEachEmbeddedDocument context sourceScript root
      ↔ ∃ node,
          subnode node root
          ∧ (encodeEmbeddedDocumentUri context (ss_id sourceScript) (vc_id node)
               ∉ disabledEmbeddedDocumentUris context)
          ∧ d = (documents_get context (ss_id sourceScript)
                   (vc_languageId node) (vc_snapshot node),
                 documents_get context
                   (encodeEmbeddedDocumentUri context (ss_id sourceScript) (vc_id node))
                   (vc_languageId node) (vc_snapshot node),
                 maps_get context node sourceScript).
Proof.
  split.
  - rewrite walk_postOrder. apply ownDocument_filter.
  - intros d. rewrite walk_postOrder, ownDocument_filter, list_elem_of_fmap.
    split.
    + intros (node & -> & Hnode). apply list_elem_of_filter in Hnode as [Hen Hin].
      exists node. by rewrite <- elem_of_postOrder.
    + intros (node & Hsub & Hen & ->). exists node. split; [done|].
      apply list_elem_of_filter. by rewrite elem_of_postOrder.
Qed.

End WalkerFacts.

(** ** The level-indexed view *)

Section LevelFacts.

Context {Snapshot CodeInformation Mapping : Type}.

Implicit Types (context : LanguageServiceContext Snapshot CodeInformation Mapping)
  (root file : VirtualCode Snapshot) (files : list (VirtualCode Snapshot))
  (sourceFileUri : URI).

(** The inner loop of lines 175-179 appends the enabled codes. *)
Lemma inner_push_loop context sourceFileUri (codes nextLevel : list (VirtualCode Snapshot)) :
  foldl (λ nextLevel embedded,
           if negb (isDisabledUri context
                      (encodeEmbeddedDocumentUri context sourceFileUri (vc_id embedded)))
           then nextLevel ++ [embedded] else nextLevel) nextLevel codes
  = nextLevel
    ++ filter (λ embedded,
                 encodeEmbeddedDocumentUri context sourceFileUri (vc_id embedded)
                   ∉ disabledEmbeddedDocumentUris context) codes.
Proof.
  revert nextLevel. induction codes as [|c cs IH]; intros nextLevel.
  - by rewrite app_nil_r.
  - cbn [foldl]. rewrite IH. unfold isDisabledUri.
    destruct (decide (encodeEmbeddedDocumentUri context sourceFileUri (vc_id c)
                        ∈ disabledEmbeddedDocumentUris context)) as [Hin | Hout].
    + rewrite bool_decide_eq_true_2 by done. cbn [negb].
      by rewrite filter_cons_False by (intros Hn; by apply Hn).
    + rewrite bool_decide_eq_false_2 by done. cbn [negb].
      by rewrite filter_cons_True, <- app_assoc by done.
Qed.

Lemma outer_push_loop context sourceFileUri files (nextLevel : list (VirtualCode Snapshot)) :
  foldl (λ nextLevel file,
           match embeddedCodes file with
           | Some codes =>
               foldl (λ nextLevel embedded,
                        if negb (isDisabledUri context
                                   (encodeEmbeddedDocumentUri context sourceFileUri (vc_id embedded)))
                        then nextLevel ++ [embedded]
                        else nextLevel)
                     nextLevel codes
           | None => nextLevel
           end) nextLevel files
  = nextLevel ++ flat_map (enabledChildren context sourceFileUri) files.
Proof.
  revert nextLevel. induction files as [|file files IH]; intros nextLevel.
  - by rewrite app_nil_r.
  - cbn [foldl flat_map]. rewrite IH, app_assoc. f_equal.
    unfold enabledChildren, children.
    destruct (embeddedCodes file) as [codes|].
    + apply inner_push_loop.
    + by rewrite filter_nil, app_nil_r.
Qed.

Lemma nextLevelOf_enabledChildren context sourceFileUri files :
  nextLevelOf context sourceFileUri files
  = flat_map (enabledChildren context sourceFileUri) files.
Proof. unfold nextLevelOf. by rewrite outer_push_loop. Qed.

Lemma levelLoop_levelsOf context sourceFileUri root (n : nat) :
  ∀ embeddedFilesByLevel (level : Z),
    holdsLevels context sourceFileUri root embeddedFilesByLevel →
    (0 ≤ level)%Z →
    Z.to_nat (level + 1 - Z.of_nat (length embeddedFilesByLevel)) = n →
    levelLoop context sourceFileUri embeddedFilesByLevel level
    = LevelFiles (levelsOf context sourceFileUri root (Z.to_nat level)).
Proof.
  induction n as [|n IH]; intros levels level [Hne Hinv] Hlevel Hn;
    rewrite levelLoop_equation_1; cbn [levelLoop_unfold_clause_1].
  - destruct (decide _) as [Hgt | Hle]; [|lia]. cbn [levelLoop_unfold_clause_1].
    rewrite decide_True by done.
    destruct (levels !! Z.to_nat level) as [files|] eqn:Hfiles.
    + by rewrite (Hinv _ _ Hfiles).
    + apply lookup_ge_None in Hfiles. lia.
  - destruct (decide _) as [Hgt | Hle]; [lia|]. cbn [levelLoop_unfold_clause_1].
    destruct (levels !! (length levels - 1)) as [files|] eqn:Hfiles.
    + apply IH; [|done|rewrite length_app; simpl; lia].
      split; [by destruct levels|].
      intros i files' Hi.
      destruct (decide (i < length levels)) as [Hlt | Hge].
      * rewrite lookup_app_l in Hi by done. by apply Hinv.
      * rewrite lookup_app_r in Hi by lia.
        apply list_lookup_singleton_Some in Hi as [Hi <-].
        assert (i = S (length levels - 1)) as -> by (destruct levels; simpl in *; [done|lia]).
        rewrite nextLevelOf_enabledChildren. cbn [levelsOf].
        by rewrite (Hinv _ _ Hfiles).
    + apply lookup_ge_None in Hfiles. destruct levels; simpl in *; [done|lia].
Qed.

Lemma getEmbeddedFilesByLevel_levelsOf context sourceFileUri root (level : Z) :
  (0 ≤ level)%Z →
  getEmbeddedFilesByLevel context sourceFileUri root level
  = LevelFiles (levelsOf context sourceFileUri root (Z.to_nat level)).
Proof.
  intros Hlevel. unfold getEmbeddedFilesByLevel.
  eapply levelLoop_levelsOf; [|done|done].
  split; [done|]. intros i files Hi.
  apply list_lookup_singleton_Some in Hi as [-> <-]. done.
Qed.

(** C7. Level 0 of the view is the root alone; for [k > 0], level [k] is
    the concatenation, in order over the nodes of level [k - 1], of the
    children of each whose encoded identity is not in the disabled set. *)
Theorem level_indexed_view context sourceFileUri root :
  getEmbeddedFilesByLevel context sourceFileUri root 0 = LevelFiles [root]
  ∧ ∀ k : Z, (0 < k)%Z →
      ∃ previous,
        getEmbeddedFilesByLevel context sourceFileUri root (k - 1) = LevelFiles previous
        ∧ getEmbeddedFilesByLevel context sourceFileUri root k
          = LevelFiles
              (flat_map
                 (λ node,
                    filter (λ embedded,
                              encodeEmbeddedDocumentUri context sourceFileUri (vc_id embedded)
                                ∉ disabledEmbeddedDocumentUris context)
                           (children node))
                 previous).
Proof.
  split; [by rewrite getEmbeddedFilesByLevel_levelsOf|].
  intros k Hk.
  exists (levelsOf context sourceFileUri root (Z.to_nat (k - 1))).
  rewrite !getEmbeddedFilesByLevel_levelsOf by lia.
  split; [done|].
  replace (Z.to_nat k) with (S (Z.to_nat (k - 1))) by lia. done.
Qed.

End LevelFacts.

(** ** The point projections *)

Section ProjectorFacts.

Context {CodeInformation Mapping : Type}.

(** C9 (as the code has it). When the map relates the offset of a
    generated position to exactly one source offset, relates that source
    offset back to exactly that generated offset, and the source offset is an
    offset the source buffer converts to a position and back unchanged,
    projecting the generated position to the source and the result back
    yields exactly one position: the embedded buffer's position of the
    original generated offset. *)
Theorem projection_round_trip
    (sourceDocument embeddedDocument : TextDocument)
    (map : SourceMap CodeInformation Mapping) (position : Position)
    (filter filter' : option (CodeInformation → bool))
    (sourceOffset : nat) (mapping mapping' : Mapping) :
  getSourceOffsets map (offsetAt embeddedDocument position) (filterOrDefault filter)
  = [(sourceOffset, mapping)] →
  getGeneratedOffsets map sourceOffset (filterOrDefault filter')
  = [(offsetAt embeddedDocument position, mapping')] →
  offsetAt sourceDocument (positionAt sourceDocument sourceOffset) = sourceOffset →
  getSourcePositions (sourceDocument, embeddedDocument, map) position filter
    = [positionAt sourceDocument sourceOffset]
  ∧ (getSourcePositions (sourceDocument, embeddedDocument, map) position filter
     ≫= λ sourcePosition,
       getGeneratedPositions (sourceDocument, embeddedDocument, map) sourcePosition filter')
    = [positionAt embeddedDocument (offsetAt embeddedDocument position)].
Proof.
  intros Hto Hback Hbuffer. unfold getSourcePositions, getGeneratedPositions.
  rewrite Hto. cbn [fmap list_fmap fst]. split; [done|].
  rewrite bind_cons. cbn [mbind list_bind]. by rewrite app_nil_r, Hbuffer, Hback.
Qed.

End ProjectorFacts.

(** ** The dispatcher *)

Section DispatchFacts.

Context {Snapshot CodeInformation Mapping World Err T K : Type}.
Context (truthy : T → bool).

Abbreviation LSContext := (LanguageServiceContext Snapshot CodeInformation Mapping).
Abbreviation DM := (DocumentsAndMap CodeInformation Mapping).
Abbreviation Wk := (Worker (World := World) (Err := Err) (T := T) (K := K)
                      (CodeInformation := CodeInformation) (Mapping := Mapping)).
Abbreviation Cmp := (M (World := World) (Err := Err) (T := T) (K := K)
                       (CodeInformation := CodeInformation) (Mapping := Mapping)).
Abbreviation St := (Run (World := World) (Err := Err) (T := T) (K := K)
                      (CodeInformation := CodeInformation) (Mapping := Mapping)).
Abbreviation Tg := (Target (K := K) (CodeInformation := CodeInformation)
                      (Mapping := Mapping)).
Abbreviation Entry := (nat * (LanguageServicePlugin * LanguageServicePluginInstance))%type.

Implicit Types (context : LSContext) (worker : Wk)
  (transformResult : T → option DM → option T)
  (combineResult : option (list T → T))
  (s : St) (results : list T) (docs : DM).

(** *** The monad *)

Lemma bind_run {A B} (m : Cmp A) (k : A → Cmp B) s :
  (m ≫= k) s
  = match m s with
    | (Returned a, s') => k a s'
    | (Threw err, s') => (Threw err, s')
    end.
Proof. done. Qed.

Lemma ret_run {A} (a : A) s : (mret a : Cmp A) s = (Returned a, s).
Proof. done. Qed.

Lemma forOf_cons {A} (x : A) xs (body : A → list T → Cmp (Flow * list T)) results s :
  forOf (x :: xs) body results s
  = match body x results s with
    | (Returned (Continue, results'), s') => forOf xs body results' s'
    | (Returned (Break, results'), s') => (Returned results', s')
    | (Threw err, s') => (Threw err, s')
    end.
Proof.
  cbn [forOf]. rewrite bind_run.
  by destruct (body x results s) as [[[[|] ?]|?] ?].
Qed.

(** A loop whose body leaves [results] alone does nothing. *)
Lemma forOf_skip {A} (xs : list A) (body : A → list T → Cmp (Flow * list T)) results :
  (∀ x s, body x results s = (Returned (Continue, results), s)) →
  ∀ s, forOf xs body results s = (Returned results, s).
Proof.
  intros Hskip. induction xs as [|x xs IH]; intros s; [done|].
  by rewrite forOf_cons, Hskip.
Qed.

(** *** One guarded call *)

Lemma safeCall_callWorker worker (target : Tg) msg s :
  safeCall (callWorker worker target) msg s
  = match worker (tg_plugin target) (tg_document target) (tg_params target)
                 (tg_map target) (world s) with
    | (Returned value, world') =>
        (Returned (Some value),
         mkRun world' (invoked s ++ [(target, Returned value)]) (warned s))
    | (Threw err, world') =>
        (Returned None,
         mkRun world' (invoked s ++ [(target, Threw err)]) (warned s ++ [(msg, err)]))
    end.
Proof.
  unfold safeCall, callWorker.
  by destruct (worker _ _ _ _ _) as [[value|err] world'].
Qed.

(** A guarded call always returns; it records the call and contributes
    what [accepted] reads off the record. *)
Lemma attempt_run worker transformResult (target : Tg) s :
  ∃ outcome s',
    attempt truthy worker transformResult target s
    = (Returned (accepted truthy transformResult (target, outcome)), s')
    ∧ invoked s' = invoked s ++ [(target, outcome)]
    ∧ worker (tg_plugin target) (tg_document target) (tg_params target)
             (tg_map target) (world s) = (outcome, world s').
Proof.
  unfold attempt. rewrite bind_run, safeCall_callWorker.
  destruct (worker _ _ _ _ _) as [[value|err] world'] eqn:Hcall.
  - exists (Returned value). eexists. split; [by rewrite ret_run|done].
  - exists (Threw err). eexists. split; [by rewrite ret_run|done].
Qed.

(** The body of the plugin loop of the generated path is a guarded call
    whose contribution is pushed. *)
Lemma generatedPluginBody_attempt context worker transformResult combineResult
    docs (mappedArg : K) pluginIndex plugin results s :
  isDisabledPlugin context plugin = false →
  shortCircuit results combineResult = false →
  generatedPluginBody truthy context worker transformResult combineResult
    docs mappedArg (pluginIndex, plugin) results s
  = match attempt truthy worker transformResult
            (mkTarget pluginIndex plugin docs.1.2 mappedArg (Some docs)) s with
    | (Returned (Some result), s') => (Returned (Continue, results ++ [result]), s')
    | (Returned None, s') => (Returned (Continue, results), s')
    | (Threw err, s') => (Threw err, s')
    end.
Proof.
  intros Hen Hsc. unfold generatedPluginBody, attempt. rewrite Hen, Hsc.
  rewrite !bind_run. cbn [tg_plugin tg_pluginIndex tg_document tg_map].
  destruct (safeCall _ _ s) as [[raw|err] s']; [|done].
  rewrite ret_run.
  destruct (raw ≫= truthyValue truthy) as [rawResult|]; [|done].
  cbn [mbind option_bind].
  by destruct (transformResult rawResult (Some docs) ≫= whenTruthy truthy).
Qed.

Lemma realPluginBody_attempt context worker transformResult combineResult
    document (params : K) pluginIndex plugin results s :
  isDisabledPlugin context plugin = false →
  realPluginBody truthy context worker transformResult combineResult
    document params (pluginIndex, plugin) results s
  = match attempt truthy worker transformResult
            (mkTarget pluginIndex plugin document params None) s with
    | (Returned (Some result), s') =>
        (Returned (match combineResult with None => Break | Some _ => Continue end,
                   results ++ [result]), s')
    | (Returned None, s') => (Returned (Continue, results), s')
    | (Threw err, s') => (Threw err, s')
    end.
Proof.
  intros Hen. unfold realPluginBody, attempt. rewrite Hen.
  rewrite !bind_run. cbn [tg_plugin tg_pluginIndex tg_document tg_map].
  destruct (safeCall _ _ s) as [[raw|err] s']; [|done].
  rewrite ret_run.
  destruct (raw ≫= truthyValue truthy) as [rawResult|]; [|done].
  cbn [mbind option_bind].
  destruct (transformResult rawResult None ≫= whenTruthy truthy); [|done].
  by destruct combineResult.
Qed.

(** *** First accepted result wins *)

Lemma firstWins_cons worker transformResult (target : Tg) rest s :
  firstWins truthy worker transformResult (target :: rest) s
  = match attempt truthy worker transformResult target s with
    | (Returned (Some result), s') => (Returned [result], s')
    | (Returned None, s') => firstWins truthy worker transformResult rest s'
    | (Threw err, s') => (Threw err, s')
    end.
Proof.
  cbn [firstWins]. rewrite bind_run.
  by destruct (attempt _ _ _ _ _) as [[[?|]|?] ?].
Qed.

Lemma firstWins_app worker transformResult (first rest : list Tg) s :
  firstWins truthy worker transformResult (first ++ rest) s
  = match firstWins truthy worker transformResult first s with
    | (Returned [], s') => firstWins truthy worker transformResult rest s'
    | (Returned (r :: rs), s') => (Returned (r :: rs), s')
    | (Threw err, s') => (Threw err, s')
    end.
Proof.
  revert s. induction first as [|target first IH]; intros s; [done|].
  rewrite <- app_comm_cons, !firstWins_cons.
  destruct (attempt _ _ _ _ _) as [[[?|]|?] ?]; [done| |done]. apply IH.
Qed.

(** A loop that, on empty [results], runs [firstWins] on the candidates of
    its element, and on non-empty [results] skips, is [firstWins] on the
    candidates of all its elements. *)
Lemma forOf_firstWins {A} worker transformResult (xs : list A)
    (body : A → list T → Cmp (Flow * list T)) (cands : A → list Tg) :
  (∀ x s, body x [] s
          = match firstWins truthy worker transformResult (cands x) s with
            | (Returned rs, s') => (Returned (Continue, rs), s')
            | (Threw err, s') => (Threw err, s')
            end) →
  (∀ x r rs s, body x (r :: rs) s = (Returned (Continue, r :: rs), s)) →
  ∀ s, forOf xs body [] s = firstWins truthy worker transformResult (xs ≫= cands) s.
Proof.
  intros Hnil Hskip. induction xs as [|x xs IH]; intros s; [done|].
  rewrite forOf_cons, Hnil, bind_cons, firstWins_app.
  destruct (firstWins _ _ _ (cands x) s) as [[[|r rs]|err] s']; [apply IH | | done].
  apply forOf_skip. intros. apply Hskip.
Qed.

(** The candidate of one registry entry for a document and a parameter
    set: none when its instance is disabled. *)
Lemma entries_candidates context (make : Entry → Tg) (entries : list Entry) :
  entries ≫= (λ entry, if isDisabledPlugin context entry.2 then [] else [make entry])
  = make <$> filter (λ entry, instanceId entry.2.2 ∉ disabledServicePlugins context) entries.
Proof.
  induction entries as [|[i p] entries IH]; [done|].
  rewrite bind_cons, IH. unfold isDisabledPlugin. cbn [snd].
  destruct (decide (instanceId p.2 ∈ disabledServicePlugins context)) as [Hin | Hout].
  - rewrite bool_decide_eq_true_2 by done.
    by rewrite filter_cons_False by (intros Hn; by apply Hn).
  - rewrite bool_decide_eq_false_2 by done.
    by rewrite filter_cons_True by done.
Qed.

Lemma generated_plugin_loop context worker transformResult docs (mappedArg : K)
    (entries : list Entry) s :
  forOf entries
    (generatedPluginBody truthy context worker transformResult None docs mappedArg) [] s
  = firstWins truthy worker transformResult
      (entries ≫= λ entry,
         if isDisabledPlugin context entry.2 then []
         else [mkTarget entry.1 entry.2 docs.1.2 mappedArg (Some docs)]) s.
Proof.
  apply forOf_firstWins.
  - intros [i p] s0. cbn [fst snd].
    destruct (isDisabledPlugin context p) eqn:Hdis.
    + unfold generatedPluginBody. by rewrite Hdis.
    + rewrite generatedPluginBody_attempt, firstWins_cons by done.
      by destruct (attempt _ _ _ _ _) as [[[?|]|?] ?].
  - intros [i p] r rs s0. unfold generatedPluginBody.
    by destruct (isDisabledPlugin context p).
Qed.

Lemma generated_params_loop context worker transformResult docs (args : list K) s :
  forOf args (generatedParamsBody truthy context worker transformResult None docs) [] s
  = firstWins truthy worker transformResult
      (args ≫= λ mappedArg,
         pluginEntries context ≫= λ entry,
           if isDisabledPlugin context entry.2 then []
           else [mkTarget entry.1 entry.2 docs.1.2 mappedArg (Some docs)]) s.
Proof.
  apply forOf_firstWins.
  - intros mappedArg s0. unfold generatedParamsBody. cbn [shortCircuit].
    rewrite bind_run, generated_plugin_loop.
    by destruct (firstWins _ _ _ _ _) as [[?|?] ?].
  - done.
Qed.

Lemma generated_docs_loop context worker transformResult
    (eachVirtualDocParams : DM → list K) (documents : list DM) s :
  forOf documents
    (generatedDocsBody truthy context worker transformResult None eachVirtualDocParams) [] s
  = firstWins truthy worker transformResult
      (documents ≫= λ docs,
         eachVirtualDocParams docs ≫= λ mappedArg,
           pluginEntries context ≫= λ entry,
             if isDisabledPlugin context entry.2 then []
             else [mkTarget entry.1 entry.2 docs.1.2 mappedArg (Some docs)]) s.
Proof.
  apply forOf_firstWins.
  - intros docs s0. unfold generatedDocsBody. cbn [shortCircuit].
    rewrite bind_run, generated_params_loop.
    by destruct (firstWins _ _ _ _ _) as [[?|?] ?].
  - done.
Qed.

Lemma real_plugin_loop context worker transformResult document (params : K)
    (entries : list Entry) s :
  forOf entries
    (realPluginBody truthy context worker transformResult None document params) [] s
  = firstWins truthy worker transformResult
      (entries ≫= λ entry,
         if isDisabledPlugin context entry.2 then []
         else [mkTarget entry.1 entry.2 document params None]) s.
Proof.
  revert s. induction entries as [|[i p] entries IH]; intros s; [done|].
  rewrite forOf_cons, bind_cons. cbn [fst snd].
  destruct (isDisabledPlugin context p) eqn:Hdis.
  - unfold realPluginBody. rewrite Hdis, ret_run. apply IH.
  - rewrite realPluginBody_attempt by done. cbn [app]. rewrite firstWins_cons.
    destruct (attempt _ _ _ _ _) as [[[?|]|?] ?]; [done| |done]. apply IH.
Qed.

(** Without a combiner the accumulation is [firstWins] on the candidates. *)
Lemma accumulateResults_firstWins context worker transformResult
    (getRealDocParams : unit → K) (eachVirtualDocParams : DM → list K)
    (sourceScript : SourceScript Snapshot) s :
  accumulateResults truthy context worker transformResult None
    getRealDocParams eachVirtualDocParams sourceScript s
  = firstWins truthy worker transformResult
      (candidates context sourceScript getRealDocParams eachVirtualDocParams) s.
Proof.
  unfold accumulateResults, candidates, enabledEntries.
  destruct (generated sourceScript) as [root|].
  - rewrite generated_docs_loop. f_equal.
    apply list_bind_ext; [|done]. intros docs.
    apply list_bind_ext; [|done]. intros mappedArg.
    apply (entries_candidates context
             (λ entry, mkTarget entry.1 entry.2 docs.1.2 mappedArg (Some docs))).
  - rewrite real_plugin_loop. f_equal.
    apply (entries_candidates context
             (λ entry, mkTarget entry.1 entry.2 _ (getRealDocParams ()) None)).
Qed.

(** What [firstWins] does: it makes the candidate calls in order up to and
    including the first accepted one, and returns that one's result. *)
Lemma firstWins_trace worker transformResult (targets : list Tg) s :
  ∃ rs s' trace,
    firstWins truthy worker transformResult targets s = (Returned rs, s')
    ∧ invoked s' = invoked s ++ trace
    ∧ trace.*1 `prefix_of` targets
    ∧ match rs with
      | [] => trace.*1 = targets
              ∧ Forall (λ call, accepted truthy transformResult call = None) trace
      | result :: more =>
          more = []
          ∧ ∃ earlier last,
              trace = earlier ++ [last]
              ∧ Forall (λ call, accepted truthy transformResult call = None) earlier
              ∧ accepted truthy transformResult last = Some result
      end.
Proof.
  revert s. induction targets as [|target targets IH]; intros s.
  - exists [], s, []. rewrite app_nil_r. by repeat split.
  - rewrite firstWins_cons.
    destruct (attempt_run worker transformResult target s)
      as (outcome & s1 & -> & Hinv & _).
    destruct (accepted truthy transformResult (target, outcome)) as [result|] eqn:Hacc.
    + exists [result], s1, [(target, outcome)]. split; [done|]. split; [done|].
      split; [by apply prefix_cons, prefix_nil|].
      split; [done|]. exists [], (target, outcome). by repeat split.
    + destruct (IH s1) as (rs & s' & trace & -> & Hinv' & Hpre & Hrs).
      exists rs, s', ((target, outcome) :: trace). split; [done|].
      split; [by rewrite Hinv', Hinv, <- app_assoc|].
      split; [by apply prefix_cons|].
      destruct rs as [|result more].
      * destruct Hrs as [Heq Hall]. split; [|by constructor].
        rewrite fmap_cons. by rewrite Heq.
      * destruct Hrs as (-> & earlier & last & -> & Hall & Hlast).
        split; [done|]. exists ((target, outcome) :: earlier), last.
        split; [done|]. split; [by constructor|done].
Qed.

(** Once [results] is non-empty and there is no combiner, each of the
    three loops of the generated path leaves everything as it is. *)
Lemma generated_loops_skip context worker transformResult
    (eachVirtualDocParams : DM → list K) result more s :
  (∀ entries docs (mappedArg : K),
     forOf entries
       (generatedPluginBody truthy context worker transformResult None docs mappedArg)
       (result :: more) s
     = (Returned (result :: more), s))
  ∧ (∀ (args : list K) docs,
       forOf args (generatedParamsBody truthy context worker transformResult None docs)
         (result :: more) s
       = (Returned (result :: more), s))
  ∧ (∀ documents,
       forOf documents
         (generatedDocsBody truthy context worker transformResult None eachVirtualDocParams)
         (result :: more) s
       = (Returned (result :: more), s)).
Proof.
  repeat split; intros; apply forOf_skip; try done.
  intros [i p] s0. unfold generatedPluginBody. by destruct (isDisabledPlugin context p).
Qed.

(** C1. Without a combiner, a dispatch makes the candidate worker calls
    in order (embedded documents in the walker's order, then parameter sets,
    then plugins in registration order; or the plugins on the one document of
    a script without generated code) only up to and including the first
    call that contributes a result: every earlier call contributed nothing,
    no call is made after it, and its result is returned; when nothing is
    returned every candidate was called and none contributed. Once a result
    is accumulated each of the three loops of the generated path leaves the
    run untouched. *)
Theorem first_accepted_result_wins context worker transformResult uri
    (getRealDocParams : unit → K) (eachVirtualDocParams : DM → list K)
    (sourceScript : SourceScript Snapshot) s :
  scripts context !! uri = Some sourceScript →
  (∃ r s' trace,
     languageFeatureWorker truthy context uri
       getRealDocParams eachVirtualDocParams worker transformResult None s
     = (Returned r, s')
     ∧ invoked s' = invoked s ++ trace
     ∧ trace.*1 `prefix_of`
         candidates context sourceScript getRealDocParams eachVirtualDocParams
     ∧ match r with
       | Some result =>
           ∃ earlier last,
             trace = earlier ++ [last]
             ∧ Forall (λ call, accepted truthy transformResult call = None) earlier
             ∧ accepted truthy transformResult last = Some result
       | None =>
           trace.*1 = candidates context sourceScript getRealDocParams eachVirtualDocParams
           ∧ Forall (λ call, accepted truthy transformResult call = None) trace
       end)
  ∧ (∀ result more s0,
       (∀ entries docs (mappedArg : K),
          forOf entries
            (generatedPluginBody truthy context worker transformResult None docs mappedArg)
            (result :: more) s0
          = (Returned (result :: more), s0))
       ∧ (∀ (args : list K) docs,
            forOf args (generatedParamsBody truthy context worker transformResult None docs)
              (result :: more) s0
            = (Returned (result :: more), s0))
       ∧ (∀ documents,
            forOf documents
              (generatedDocsBody truthy context worker transformResult None
                 eachVirtualDocParams)
              (result :: more) s0
            = (Returned (result :: more), s0))).
Proof.
  intros Hscript. split; [|intros; apply generated_loops_skip].
  unfold languageFeatureWorker. rewrite Hscript, bind_run, accumulateResults_firstWins.
  destruct (firstWins_trace worker transformResult
              (candidates context sourceScript getRealDocParams eachVirtualDocParams) s)
    as (rs & s' & trace & -> & Hinv & Hpre & Hrs).
  rewrite ret_run. eexists _, s', trace. split; [done|]. split; [done|].
  split; [done|]. unfold returnValue.
  destruct rs as [|result more]; [done|].
  by destruct Hrs as (-> & Hlast).
Qed.

(** C4 (as the code has it). In the generated path, for a plugin that is
    enabled and reached, the worker's result is projected with the current
    tuple exactly when it is truthy, and the projection is pushed exactly
    when it is truthy as well; a [null], [undefined] or otherwise falsy
    result, and a thrown error, leave [results] as they are. *)
Theorem generated_result_projection context worker transformResult combineResult
    docs (mappedArg : K) pluginIndex plugin results s outcome world' :
  isDisabledPlugin context plugin = false →
  shortCircuit results combineResult = false →
  worker plugin docs.1.2 mappedArg (Some docs) (world s) = (outcome, world') →
  ∃ s',
    generatedPluginBody truthy context worker transformResult combineResult
      docs mappedArg (pluginIndex, plugin) results s
    = (Returned
         (Continue,
          match outcome with
          | Returned (JsValue rawResult) =>
              if truthy rawResult then
                match transformResult rawResult (Some docs) with
                | Some mappedResult =>
                    if truthy mappedResult then results ++ [mappedResult] else results
                | None => results
                end
              else results
          | Returned JsNull | Returned JsUndefined | Threw _ => results
          end), s')
    ∧ world s' = world'.
Proof.
  intros Hen Hsc Hcall. unfold generatedPluginBody. rewrite Hen, Hsc, bind_run.
  rewrite safeCall_callWorker. cbn [tg_plugin tg_document tg_params tg_map].
  rewrite Hcall. destruct outcome as [[| |rawResult]|err]; cbn; eauto.
  unfold whenTruthy. destruct (truthy rawResult); cbn; eauto.
  destruct (transformResult rawResult (Some docs)) as [mappedResult|]; cbn; eauto.
  destruct (truthy mappedResult); cbn; eauto.
Qed.

(** *** Failure isolation *)

Lemma simulates_ret {A} log (a : A) : simulates log (mret a : Cmp A) (mret a).
Proof. intros s1 s2 Hsame. by exists a, s1, s2. Qed.

Lemma simulates_bind {A B} log (m1 m2 : Cmp A) (k1 k2 : A → Cmp B) :
  simulates log m1 m2 → (∀ a, simulates log (k1 a) (k2 a)) →
  simulates log (m1 ≫= k1) (m2 ≫= k2).
Proof.
  intros Hm Hk s1 s2 Hsame. rewrite !bind_run.
  destruct (Hm s1 s2 Hsame) as (a & s1' & s2' & -> & -> & Hsame').
  by apply Hk.
Qed.

Lemma simulates_forOf {A} log (body1 body2 : A → list T → Cmp (Flow * list T)) xs :
  (∀ x results, simulates log (body1 x results) (body2 x results)) →
  ∀ results, simulates log (forOf xs body1 results) (forOf xs body2 results).
Proof.
  intros Hbody. induction xs as [|x xs IH]; intros results; [apply simulates_ret|].
  intros s1 s2 Hsame. rewrite !forOf_cons.
  destruct (Hbody x results s1 s2 Hsame) as ([[|] results'] & s1' & s2' & -> & -> & Hsame').
  - by apply IH.
  - by exists results', s1', s2'.
Qed.

(** A call that throws contributes what a call returning [undefined] does. *)
Lemma simulates_attempt log worker transformResult (target : Tg) :
  simulates log (attempt truthy worker transformResult target)
                (attempt truthy (quiet worker) transformResult target).
Proof.
  intros s1 s2 (Hworld & Hinvoked & Hlog). unfold attempt.
  rewrite !bind_run, !safeCall_callWorker. unfold quiet. rewrite <- Hworld.
  destruct (worker _ _ _ _ _) as [[value|err] world'].
  - eexists _, _, _. split; [done|]. split; [done|].
    split; [done|]. split; [|done]. cbn [invoked]. by rewrite !fmap_app, Hinvoked.
  - eexists _, _, _. split; [done|]. split; [done|].
    split; [done|]. split; [|done]. cbn [invoked]. by rewrite !fmap_app, Hinvoked.
Qed.

Lemma simulates_generatedPluginBody log context worker transformResult combineResult
    docs (mappedArg : K) entry results :
  simulates log
    (generatedPluginBody truthy context worker transformResult combineResult
       docs mappedArg entry results)
    (generatedPluginBody truthy context (quiet worker) transformResult combineResult
       docs mappedArg entry results).
Proof.
  destruct entry as [i p]. intros s1 s2 Hsame.
  destruct (isDisabledPlugin context p) eqn:Hdis.
  { unfold generatedPluginBody. rewrite Hdis. by eexists _, s1, s2. }
  destruct (shortCircuit results combineResult) eqn:Hsc.
  { unfold generatedPluginBody. rewrite Hdis, Hsc. by eexists _, s1, s2. }
  rewrite !generatedPluginBody_attempt by done.
  destruct (simulates_attempt log worker transformResult
              (mkTarget i p docs.1.2 mappedArg (Some docs)) s1 s2 Hsame)
    as ([result|] & s1' & s2' & -> & -> & Hsame'); by eexists _, s1', s2'.
Qed.

Lemma simulates_realPluginBody log context worker transformResult combineResult
    document (params : K) entry results :
  simulates log
    (realPluginBody truthy context worker transformResult combineResult
       document params entry results)
    (realPluginBody truthy context (quiet worker) transformResult combineResult
       document params entry results).
Proof.
  destruct entry as [i p]. intros s1 s2 Hsame.
  destruct (isDisabledPlugin context p) eqn:Hdis.
  { unfold realPluginBody. rewrite Hdis. by eexists _, s1, s2. }
  rewrite !realPluginBody_attempt by done.
  destruct (simulates_attempt log worker transformResult
              (mkTarget i p document params None) s1 s2 Hsame)
    as ([result|] & s1' & s2' & -> & -> & Hsame'); by eexists _, s1', s2'.
Qed.

Lemma simulates_accumulateResults log context worker transformResult combineResult
    (getRealDocParams : unit → K) (eachVirtualDocParams : DM → list K)
    (sourceScript : SourceScript Snapshot) :
  simulates log
    (accumulateResults truthy context worker transformResult combineResult
       getRealDocParams eachVirtualDocParams sourceScript)
    (accumulateResults truthy context (quiet worker) transformResult combineResult
       getRealDocParams eachVirtualDocParams sourceScript).
Proof.
  unfold accumulateResults. destruct (generated sourceScript) as [root|].
  - apply simulates_forOf. intros docs results. unfold generatedDocsBody.
    destruct (shortCircuit results combineResult); [apply simulates_ret|].
    apply simulates_bind; [|intros; apply simulates_ret].
    apply simulates_forOf. intros mappedArg results'. unfold generatedParamsBody.
    destruct (shortCircuit results' combineResult); [apply simulates_ret|].
    apply simulates_bind; [|intros; apply simulates_ret].
    apply simulates_forOf. intros. apply simulates_generatedPluginBody.
  - apply simulates_forOf. intros. apply simulates_realPluginBody.
Qed.

Lemma simulates_languageFeatureWorker log context worker transformResult combineResult
    uri (getRealDocParams : unit → K) (eachVirtualDocParams : DM → list K) :
  simulates log
    (languageFeatureWorker truthy context uri
       getRealDocParams eachVirtualDocParams worker transformResult combineResult)
    (languageFeatureWorker truthy context uri
       getRealDocParams eachVirtualDocParams (quiet worker) transformResult combineResult).
Proof.
  unfold languageFeatureWorker.
  destruct (scripts context !! uri) as [sourceScript|]; [|apply simulates_ret].
  apply simulates_bind; [apply simulates_accumulateResults|].
  intros. apply simulates_ret.
Qed.

(** C5. A dispatch never throws, whatever the worker does; and with a
    worker that throws it returns the same value, leaves the plugins' world
    the same and makes the same worker calls in the same order as with the
    worker that returns [undefined] wherever the first throws (and that one
    logs nothing). *)
Theorem plugin_failure_is_no_result context worker transformResult combineResult
    uri (getRealDocParams : unit → K) (eachVirtualDocParams : DM → list K) s :
  ∃ r s1 s2,
    languageFeatureWorker truthy context uri
      getRealDocParams eachVirtualDocParams worker transformResult combineResult s
    = (Returned r, s1)
    ∧ languageFeatureWorker truthy context uri
        getRealDocParams eachVirtualDocParams (quiet worker) transformResult combineResult s
      = (Returned r, s2)
    ∧ world s1 = world s2
    ∧ (invoked s1).*1 = (invoked s2).*1
    ∧ warned s2 = warned s.
Proof.
  destruct (simulates_languageFeatureWorker (warned s) context worker transformResult
              combineResult uri getRealDocParams eachVirtualDocParams s s)
    as (r & s1 & s2 & H1 & H2 & Hworld & Hinvoked & Hlog); [done|].
  by exists r, s1, s2.
Qed.

(** Without a combiner at most one result is accumulated. *)
Lemma accumulateResults_at_most_one context worker transformResult
    (getRealDocParams : unit → K) (eachVirtualDocParams : DM → list K)
    (sourceScript : SourceScript Snapshot) s results s' :
  accumulateResults truthy context worker transformResult None
    getRealDocParams eachVirtualDocParams sourceScript s = (Returned results, s') →
  length results ≤ 1.
Proof.
  rewrite accumulateResults_firstWins.
  destruct (firstWins_trace worker transformResult
              (candidates context sourceScript getRealDocParams eachVirtualDocParams) s)
    as (rs & s1 & trace & -> & _ & _ & Hrs).
  intros [= <- <-]. destruct rs as [|result more]; [simpl; lia|].
  destruct Hrs as (-> & _). done.
Qed.

(** C6. For a resolved script the accumulation returns some list of
    results, and the dispatch returns: nothing when that list is empty; the
    combiner applied to the whole list when a combiner was supplied and the
    list is not empty; and, with no combiner, the first accumulated result,
    which is then the only one. *)
Theorem return_value context worker transformResult combineResult uri
    (getRealDocParams : unit → K) (eachVirtualDocParams : DM → list K)
    (sourceScript : SourceScript Snapshot) s :
  scripts context !! uri = Some sourceScript →
  ∃ results r s',
    accumulateResults truthy context worker transformResult combineResult
      getRealDocParams eachVirtualDocParams sourceScript s = (Returned results, s')
    ∧ languageFeatureWorker truthy context uri
        getRealDocParams eachVirtualDocParams worker transformResult combineResult s
      = (Returned r, s')
    ∧ (results = [] → r = None)
    ∧ (∀ combine, combineResult = Some combine → results ≠ [] →
         r = Some (combine results))
    ∧ (combineResult = None → r = head results ∧ length results ≤ 1).
Proof.
  intros Hscript.
  destruct (simulates_accumulateResults (warned s) context worker transformResult
              combineResult getRealDocParams eachVirtualDocParams sourceScript s s)
    as (results & s' & _ & Hacc & _); [done|].
  exists results, (returnValue combineResult results), s'.
  split; [done|]. split.
  { unfold languageFeatureWorker. by rewrite Hscript, bind_run, Hacc. }
  unfold returnValue. split; [|split].
  - intros ->. by destruct combineResult.
  - intros combine -> Hne. by destruct results.
  - intros ->. split; [by destruct results|].
    by eapply accumulateResults_at_most_one.
Qed.

End DispatchFacts.

(** C8. For a URI the script resolver does not know, [languageFeatureWorker],
    and with it [documentFeatureWorker], returns nothing and leaves the run as
    it was: no worker call is made, nothing is logged, nothing is thrown. *)
Theorem unknown_uri_no_result {Snapshot CodeInformation Mapping World Err T : Type}
    (truthy : T → bool)
    (context : LanguageServiceContext Snapshot CodeInformation Mapping) (uri : URI) :
  scripts context !! uri = None →
  (∀ (K : Type) (worker : Worker (World := World) (Err := Err) (T := T) (K := K))
     transformResult combineResult getRealDocParams eachVirtualDocParams s,
     languageFeatureWorker truthy context uri
       getRealDocParams eachVirtualDocParams worker transformResult combineResult s
     = (Returned None, s))
  ∧ (∀ valid (worker : _ → _ → World → Outcome Err (JsVal T) * World)
       transformResult combineResult s,
       documentFeatureWorker truthy context uri valid worker transformResult combineResult s
       = (Returned None, s)).
Proof.
  intros Hscript. split; intros.
  - unfold languageFeatureWorker. by rewrite Hscript.
  - unfold documentFeatureWorker, languageFeatureWorker. by rewrite Hscript.
Qed.

(** ** The properties on the concrete service *)

Module Examples.
Import Example.

(** The walk of the component: the innermost code first, the disabled
    script block not at all, the root last. *)
Example walk_of_component :
  (λ docs : DocumentsAndMap unit unit, (td_uri docs.1.1, td_languageId docs.1.1, td_uri docs.1.2))
    <$> forEachEmbeddedDocument context component root
  = [("file:///app.vue", "javascript", "file:///app.vue?embedded=script_0_inner");
     ("file:///app.vue", "css", "file:///app.vue?embedded=style_0");
     ("file:///app.vue", "html", "file:///app.vue?embedded=root")].
Proof. vm_compute. reflexivity. Qed.

Example levels_of_component :
  getEmbeddedFilesByLevel context componentUri root 0 = LevelFiles [root]
  ∧ getEmbeddedFilesByLevel context componentUri root 1 = LevelFiles [style]
  ∧ getEmbeddedFilesByLevel context componentUri root 2 = LevelFiles []
  ∧ getEmbeddedFilesByLevel context componentUri root (-1) = LevelUndefined.
Proof. repeat split; vm_compute; reflexivity. Qed.

(** Two parameter sets per document, no combiner: the css plugin answers
    [null] and the typescript plugin throws on the innermost document, for
    both parameter sets; the first call on the style document is accepted
    and nothing is called after it. *)
Example dispatch_on_component :
  let run := languageFeatureWorker truthyString context componentUri
               (λ _, 7) (λ _, [1; 2]) worker keep None start in
  run.1 = Returned (Some "color")
  ∧ (λ call : Target * Outcome string (JsVal string),
       (tg_pluginIndex call.1, td_uri (tg_document call.1), tg_params call.1, call.2))
      <$> invoked run.2
    = [(0, "file:///app.vue?embedded=script_0_inner", 1, Returned JsNull);
       (1, "file:///app.vue?embedded=script_0_inner", 1, Threw "boom");
       (0, "file:///app.vue?embedded=script_0_inner", 2, Returned JsNull);
       (1, "file:///app.vue?embedded=script_0_inner", 2, Threw "boom");
       (0, "file:///app.vue?embedded=style_0", 1, Returned (JsValue "color"))]
  ∧ length (warned run.2) = 2.
Proof. repeat split; vm_compute; reflexivity. Qed.

Lemma inner_below_root : subnode inner root.
Proof.
  apply (subnode_below inner script root).
  - apply list_elem_of_here.
  - apply (subnode_below inner inner script).
    + apply list_elem_of_here.
    + apply subnode_here.
Defined.

Lemma script_below_root : subnode script root.
Proof.
  apply (subnode_below script script root).
  - apply list_elem_of_here.
  - apply subnode_here.
Defined.

Lemma script_disabled :
  encodeEmbeddedDocumentUri context (ss_id component) (vc_id script)
    ∈ disabledEmbeddedDocumentUris context.
Proof. apply elem_of_singleton_2. reflexivity. Defined.

Lemma component_resolved : scripts context !! componentUri = Some component.
Proof. vm_compute. reflexivity. Defined.

Lemma first_accepted_result_wins_witness :
  scripts context !! componentUri = Some component
  ∧ ∃ r s' trace,
      languageFeatureWorker truthyString context componentUri
        (λ _, 7) (λ _, [1; 2]) worker keep None start = (Returned r, s')
      ∧ invoked s' = invoked start ++ trace
      ∧ trace.*1 `prefix_of` candidates context component (λ _, 7) (λ _, [1; 2]).
Proof.
  split; [exact component_resolved|].
  destruct (first_accepted_result_wins truthyString context worker keep componentUri
              (λ _, 7) (λ _, [1; 2]) component start component_resolved)
    as [(r & s' & trace & Hrun & Hinvoked & Hprefix & _) _].
  exists r, s', trace. repeat split; assumption.
Defined.

Lemma walker_post_order_witness :
  subnode inner root
  ∧ ∃ before after,
      postOrder root = before ++ flat_map postOrder (children inner) ++ [inner] ++ after
      ∧ forEachEmbeddedDocument context component root
        = flat_map (ownDocument context component) before
          ++ flat_map (forEachEmbeddedDocument context component) (children inner)
          ++ ownDocument context component inner
          ++ flat_map (ownDocument context component) after.
Proof.
  split; [exact inner_below_root|].
  exact (proj2 (walker_post_order context component root) inner inner_below_root).
Defined.

Lemma disabled_node_witness :
  subnode script root
  ∧ encodeEmbeddedDocumentUri context (ss_id component) (vc_id script)
      ∈ disabledEmbeddedDocumentUris context
  ∧ forEachEmbeddedDocument context component script
    = flat_map (forEachEmbeddedDocument context component) (children script)
  ∧ documentsOf context component inner ∈ forEachEmbeddedDocument context component root.
Proof.
  split; [exact script_below_root|]. split; [exact script_disabled|].
  destruct (disabled_node_not_emitted_descendants_walked context component root script
              script_below_root script_disabled) as (Hown & _ & _ & Hdesc).
  split; [exact Hown|]. apply Hdesc.
  - apply (subnode_below inner inner script); [apply list_elem_of_here | apply subnode_here].
  - intros Hin.
    change (encode componentUri "script_0_inner"
              ∈ ({[ encode componentUri "script_0" ]} : gset string)) in Hin.
    apply elem_of_singleton_1 in Hin. vm_compute in Hin. discriminate Hin.
Defined.

(** C4, as stated, fails: the answer of [emptyAnswer] is the empty string,
    neither [null] nor [undefined]; its projection by [bracket] yields the
    non-empty string of two brackets; yet nothing is pushed. *)
Lemma falsy_result_counterexample :
  ¬ (∀ outcome world',
       emptyAnswer cssPlugin styleDocs.1.2 1 (Some styleDocs) (world start)
       = (outcome, world') →
       ∃ s',
         generatedPluginBody truthyString context emptyAnswer bracket None
           styleDocs 1 (0, cssPlugin) [] start
         = (Returned
              (Continue,
               match outcome with
               | Returned (JsValue rawResult) =>
                   match bracket rawResult (Some styleDocs) with
                   | Some mappedResult => [] ++ [mappedResult]
                   | None => []
                   end
               | Returned JsNull | Returned JsUndefined | Threw _ => []
               end), s')).
Proof.
  intros Hclaim. destruct (Hclaim _ _ eq_refl) as [s' Hs'].
  vm_compute in Hs'. congruence.
Qed.

(** The same on the whole dispatch: every call returns the empty string,
    every projection would yield a non-empty string, and the dispatch
    returns nothing. *)
Example dispatch_with_empty_answers :
  (languageFeatureWorker truthyString context componentUri
     (λ _, 7) (λ _, [1]) emptyAnswer bracket None start).1 = Returned None.
Proof. vm_compute. reflexivity. Qed.

Lemma generated_result_projection_witness :
  isDisabledPlugin context cssPlugin = false
  ∧ shortCircuit ([] : list string) None = false
  ∧ worker cssPlugin styleDocs.1.2 1 (Some styleDocs) (world start)
    = (Returned (JsValue "color"), 1)
  ∧ ∃ s',
      generatedPluginBody truthyString context worker keep None
        styleDocs 1 (0, cssPlugin) [] start
      = (Returned (Continue, ["color"]), s')
      ∧ world s' = 1.
Proof.
  assert (Hen : isDisabledPlugin context cssPlugin = false) by (vm_compute; reflexivity).
  assert (Hcall : worker cssPlugin styleDocs.1.2 1 (Some styleDocs) (world start)
                  = (Returned (JsValue "color"), 1)) by (vm_compute; reflexivity).
  split; [exact Hen|]. split; [reflexivity|]. split; [exact Hcall|].
  exact (generated_result_projection truthyString context worker keep None
           styleDocs 1 0 cssPlugin [] start _ _ Hen eq_refl Hcall).
Defined.

Lemma return_value_witness :
  scripts context !! componentUri = Some component
  ∧ ∃ results r s',
      accumulateResults truthyString context worker keep (Some (String.concat ","))
        (λ _, 7) (λ _, [1; 2]) component start = (Returned results, s')
      ∧ languageFeatureWorker truthyString context componentUri
          (λ _, 7) (λ _, [1; 2]) worker keep (Some (String.concat ",")) start
        = (Returned r, s')
      ∧ (results ≠ [] → r = Some (String.concat "," results)).
Proof.
  split; [exact component_resolved|].
  destruct (return_value truthyString context worker keep (Some (String.concat ","))
              componentUri (λ _, 7) (λ _, [1; 2]) component start component_resolved)
    as (results & r & s' & Hacc & Hrun & _ & Hcombined & _).
  exists results, r, s'. split; [exact Hacc|]. split; [exact Hrun|].
  intros Hne. exact (Hcombined _ eq_refl Hne).
Defined.

(** With the combiner every accepted result contributes: the style
    document answers once per parameter set. *)
Example dispatch_with_combiner :
  (languageFeatureWorker truthyString context componentUri
     (λ _, 7) (λ _, [1; 2]) worker keep (Some (String.concat ",")) start).1
  = Returned (Some "color,color").
Proof. vm_compute. reflexivity. Qed.

Lemma level_indexed_view_witness :
  (0 < 1)%Z
  ∧ ∃ previous,
      getEmbeddedFilesByLevel context componentUri root (1 - 1) = LevelFiles previous
      ∧ getEmbeddedFilesByLevel context componentUri root 1
        = LevelFiles
            (flat_map
               (λ node,
                  filter (λ embedded,
                            encodeEmbeddedDocumentUri context componentUri (vc_id embedded)
                              ∉ disabledEmbeddedDocumentUris context)
                         (children node))
               previous).
Proof.
  assert (Hk : (0 < 1)%Z) by lia.
  split; [exact Hk|].
  exact (proj2 (level_indexed_view context componentUri root) 1%Z Hk).
Defined.

Lemma unknown_uri_witness :
  scripts context !! "file:///missing.vue" = None
  ∧ languageFeatureWorker truthyString context "file:///missing.vue"
      (λ _, 7) (λ _, [1; 2]) worker keep None start = (Returned None, start).
Proof.
  assert (Hmissing : scripts context !! "file:///missing.vue" = None)
    by (vm_compute; reflexivity).
  split; [exact Hmissing|].
  exact (proj1 (unknown_uri_no_result (World := nat) (Err := string) truthyString context
                  "file:///missing.vue" Hmissing)
               nat worker keep None (λ _, 7) (λ _, [1; 2]) start).
Defined.

(** C9, as stated, fails: the stale map relates generated offset 3 to
    source offset 5 only and source offset 5 to generated offset 3 only, but
    the source text has two characters: the source position is clamped to
    the end of the text, and the way back finds nothing. *)
Lemma stale_round_trip_counterexample :
  ¬ (∀ sourceOffset mapping mapping',
       getSourceOffsets staleDocs.2 (offsetAt staleDocs.1.2 (mkPosition 0 3))
         (filterOrDefault None) = [(sourceOffset, mapping)] →
       getGeneratedOffsets staleDocs.2 sourceOffset (filterOrDefault None)
       = [(offsetAt staleDocs.1.2 (mkPosition 0 3), mapping')] →
       (getSourcePositions staleDocs (mkPosition 0 3) None
        ≫= λ sourcePosition, getGeneratedPositions staleDocs sourcePosition None)
       = [positionAt staleDocs.1.2 (offsetAt staleDocs.1.2 (mkPosition 0 3))]).
Proof.
  intros Hclaim. specialize (Hclaim 5 () () eq_refl eq_refl).
  vm_compute in Hclaim. discriminate Hclaim.
Qed.

Example stale_round_trip :
  getSourcePositions staleDocs (mkPosition 0 3) None = [mkPosition 0 2]
  ∧ (getSourcePositions staleDocs (mkPosition 0 3) None
     ≫= λ sourcePosition, getGeneratedPositions staleDocs sourcePosition None) = [].
Proof. split; vm_compute; reflexivity. Qed.

Lemma projection_round_trip_witness :
  getSourceOffsets identityDocs.2 (offsetAt identityDocs.1.2 (mkPosition 0 3))
    (filterOrDefault None) = [(3, ())]
  ∧ getGeneratedOffsets identityDocs.2 3 (filterOrDefault None)
    = [(offsetAt identityDocs.1.2 (mkPosition 0 3), ())]
  ∧ offsetAt identityDocs.1.1 (positionAt identityDocs.1.1 3) = 3
  ∧ (getSourcePositions identityDocs (mkPosition 0 3) None
     ≫= λ sourcePosition, getGeneratedPositions identityDocs sourcePosition None)
    = [mkPosition 0 3].
Proof.
  split; [reflexivity|]. split; [reflexivity|]. split; [reflexivity|].
  exact (proj2 (projection_round_trip identityDocs.1.1 identityDocs.1.2 identityDocs.2
                  (mkPosition 0 3) None None 3 () () eq_refl eq_refl eq_refl)).
Defined.

End Examples.

(** * Further properties *)

(** ** The dispatcher with a combiner, and what every dispatch calls and logs *)

Section DispatchTraceFacts.

Context {Snapshot CodeInformation Mapping World Err T K : Type}.
Context (truthy : T → bool).

Abbreviation XContext := (LanguageServiceContext Snapshot CodeInformation Mapping).
Abbreviation XDocs := (DocumentsAndMap CodeInformation Mapping).
Abbreviation XWork := (Worker (World := World) (Err := Err) (T := T) (K := K)
                         (CodeInformation := CodeInformation) (Mapping := Mapping)).
Abbreviation XComp := (M (World := World) (Err := Err) (T := T) (K := K)
                         (CodeInformation := CodeInformation) (Mapping := Mapping)).
Abbreviation XRun := (Run (World := World) (Err := Err) (T := T) (K := K)
                        (CodeInformation := CodeInformation) (Mapping := Mapping)).
Abbreviation XTarget := (Target (K := K) (CodeInformation := CodeInformation)
                           (Mapping := Mapping)).
Abbreviation XEntry := (nat * (LanguageServicePlugin * LanguageServicePluginInstance))%type.

Implicit Types (context : XContext) (worker : XWork)
  (transformResult : T → option XDocs → option T)
  (combineResult : option (list T → T))
  (s : XRun) (results : list T) (docs : XDocs).

(** A guarded call, with what it logs. *)
Lemma attempt_log worker transformResult (target : XTarget) s :
  ∃ outcome s',
    attempt truthy worker transformResult target s
    = (Returned (accepted truthy transformResult (target, outcome)), s')
    ∧ invoked s' = invoked s ++ [(target, outcome)]
    ∧ warned s' = warned s ++ warningOf (target, outcome)
    ∧ worker (tg_plugin target) (tg_document target) (tg_params target)
             (tg_map target) (world s) = (outcome, world s').
Proof.
  unfold attempt. rewrite bind_run, safeCall_callWorker.
  destruct (worker _ _ _ _ _) as [[value|err] world'] eqn:Hcall.
  - exists (Returned value). eexists. split; [by rewrite ret_run|].
    split; [done|]. split; [|done]. cbn. by rewrite app_nil_r.
  - exists (Threw err). eexists. split; [by rewrite ret_run|]. done.
Qed.

Lemma collectAll_cons worker transformResult (target : XTarget) rest results s :
  collectAll truthy worker transformResult (target :: rest) results s
  = match attempt truthy worker transformResult target s with
    | (Returned r, s') =>
        collectAll truthy worker transformResult rest (results ++ option_list r) s'
    | (Threw err, s') => (Threw err, s')
    end.
Proof. cbn [collectAll]. by rewrite bind_run. Qed.

Lemma collectAll_app worker transformResult (first rest : list XTarget) results s :
  collectAll truthy worker transformResult (first ++ rest) results s
  = match collectAll truthy worker transformResult first results s with
    | (Returned results', s') => collectAll truthy worker transformResult rest results' s'
    | (Threw err, s') => (Threw err, s')
    end.
Proof.
  revert results s. induction first as [|target first IH]; intros results s; [done|].
  rewrite <- app_comm_cons, !collectAll_cons.
  destruct (attempt _ _ _ _ _) as [[r|err] s']; [apply IH|done].
Qed.

(** A loop whose body runs [collectAll] on the candidates of its element
    is [collectAll] on the candidates of all its elements. *)
Lemma forOf_collectAll {A} worker transformResult (xs : list A)
    (body : A → list T → XComp (Flow * list T)) (cands : A → list XTarget) :
  (∀ x results s,
     body x results s
     = match collectAll truthy worker transformResult (cands x) results s with
       | (Returned rs, s') => (Returned (Continue, rs), s')
       | (Threw err, s') => (Threw err, s')
       end) →
  ∀ results s,
    forOf xs body results s
    = collectAll truthy worker transformResult (xs ≫= cands) results s.
Proof.
  intros Hbody. induction xs as [|x xs IH]; intros results s; [done|].
  rewrite forOf_cons, Hbody, bind_cons, collectAll_app.
  destruct (collectAll _ _ _ (cands x) results s) as [[rs|err] s']; [apply IH|done].
Qed.

Lemma generated_plugin_loop_all context worker transformResult combine docs
    (mappedArg : K) (entries : list XEntry) results s :
  forOf entries
    (generatedPluginBody truthy context worker transformResult (Some combine)
       docs mappedArg) results s
  = collectAll truthy worker transformResult
      (entries ≫= λ entry,
         if isDisabledPlugin context entry.2 then []
         else [mkTarget entry.1 entry.2 docs.1.2 mappedArg (Some docs)]) results s.
Proof.
  apply forOf_collectAll. intros [i p] rs s0. cbn [fst snd].
  destruct (isDisabledPlugin context p) eqn:Hdis.
  - unfold generatedPluginBody. by rewrite Hdis.
  - rewrite generatedPluginBody_attempt, collectAll_cons by (done || by destruct rs).
    destruct (attempt _ _ _ _ _) as [[[result|]|err] s']; [done| |done].
    cbn [option_list collectAll]. by rewrite app_nil_r.
Qed.

Lemma generated_params_loop_all context worker transformResult combine docs
    (args : list K) results s :
  forOf args
    (generatedParamsBody truthy context worker transformResult (Some combine) docs)
    results s
  = collectAll truthy worker transformResult
      (args ≫= λ mappedArg,
         pluginEntries context ≫= λ entry,
           if isDisabledPlugin context entry.2 then []
           else [mkTarget entry.1 entry.2 docs.1.2 mappedArg (Some docs)]) results s.
Proof.
  apply forOf_collectAll. intros mappedArg rs s0. unfold generatedParamsBody.
  replace (shortCircuit rs (Some combine)) with false by (by destruct rs).
  rewrite bind_run, generated_plugin_loop_all.
  by destruct (collectAll _ _ _ _ _ _) as [[?|?] ?].
Qed.

Lemma generated_docs_loop_all context worker transformResult combine
    (eachVirtualDocParams : XDocs → list K) (documents : list XDocs) results s :
  forOf documents
    (generatedDocsBody truthy context worker transformResult (Some combine)
       eachVirtualDocParams) results s
  = collectAll truthy worker transformResult
      (documents ≫= λ docs,
         eachVirtualDocParams docs ≫= λ mappedArg,
           pluginEntries context ≫= λ entry,
             if isDisabledPlugin context entry.2 then []
             else [mkTarget entry.1 entry.2 docs.1.2 mappedArg (Some docs)]) results s.
Proof.
  apply forOf_collectAll. intros docs rs s0. unfold generatedDocsBody.
  replace (shortCircuit rs (Some combine)) with false by (by destruct rs).
  rewrite bind_run, generated_params_loop_all.
  by destruct (collectAll _ _ _ _ _ _) as [[?|?] ?].
Qed.

Lemma real_plugin_loop_all context worker transformResult combine document (params : K)
    (entries : list XEntry) results s :
  forOf entries
    (realPluginBody truthy context worker transformResult (Some combine) document params)
    results s
  = collectAll truthy worker transformResult
      (entries ≫= λ entry,
         if isDisabledPlugin context entry.2 then []
         else [mkTarget entry.1 entry.2 document params None]) results s.
Proof.
  apply forOf_collectAll. intros [i p] rs s0. cbn [fst snd].
  destruct (isDisabledPlugin context p) eqn:Hdis.
  - unfold realPluginBody. by rewrite Hdis.
  - rewrite realPluginBody_attempt, collectAll_cons by done.
    destruct (attempt _ _ _ _ _) as [[[result|]|err] s']; [done| |done].
    cbn [option_list collectAll]. by rewrite app_nil_r.
Qed.

(** With a combiner the accumulation is [collectAll] on the candidates. *)
Lemma accumulateResults_collectAll context worker transformResult combine
    (getRealDocParams : unit → K) (eachVirtualDocParams : XDocs → list K)
    (sourceScript : SourceScript Snapshot) s :
  accumulateResults truthy context worker transformResult (Some combine)
    getRealDocParams eachVirtualDocParams sourceScript s
  = collectAll truthy worker transformResult
      (candidates context sourceScript getRealDocParams eachVirtualDocParams) [] s.
Proof.
  unfold accumulateResults, candidates, enabledEntries.
  destruct (generated sourceScript) as [root|].
  - rewrite generated_docs_loop_all. f_equal.
    apply list_bind_ext; [|done]. intros docs.
    apply list_bind_ext; [|done]. intros mappedArg.
    apply (entries_candidates context
             (λ entry, mkTarget entry.1 entry.2 docs.1.2 mappedArg (Some docs))).
  - rewrite real_plugin_loop_all. f_equal.
    apply (entries_candidates context
             (λ entry, mkTarget entry.1 entry.2 _ (getRealDocParams ()) None)).
Qed.

(** What [collectAll] does: every candidate is called once, in order; the
    results are the contributions of the calls, in order; every failure is
    logged once. *)
Lemma collectAll_trace worker transformResult (targets : list XTarget) results s :
  ∃ s' trace,
    collectAll truthy worker transformResult targets results s
    = (Returned (results ++ omap (accepted truthy transformResult) trace), s')
    ∧ invoked s' = invoked s ++ trace
    ∧ trace.*1 = targets
    ∧ warned s' = warned s ++ (trace ≫= warningOf).
Proof.
  revert results s. induction targets as [|target targets IH]; intros results s.
  - exists s, []. cbn. by rewrite !app_nil_r.
  - rewrite collectAll_cons.
    destruct (attempt_log worker transformResult target s)
      as (outcome & s1 & -> & Hinv & Hlog & _).
    destruct (IH (results ++ option_list (accepted truthy transformResult (target, outcome))) s1)
      as (s' & trace & -> & Hinv' & Htargets & Hlog').
    exists s', ((target, outcome) :: trace).
    split; [|split; [|split]].
    + f_equal. rewrite <- app_assoc. f_equal. cbn [omap list_omap].
      by destruct (accepted truthy transformResult (target, outcome)).
    + by rewrite Hinv', Hinv, <- app_assoc.
    + rewrite fmap_cons. by rewrite Htargets.
    + rewrite Hlog', Hlog, bind_cons, <- app_assoc. done.
Qed.

(** What [firstWins] logs, and that it calls candidates only. *)
Lemma firstWins_log worker transformResult (targets : list XTarget) s :
  ∃ rs s' trace,
    firstWins truthy worker transformResult targets s = (Returned rs, s')
    ∧ invoked s' = invoked s ++ trace
    ∧ trace.*1 `prefix_of` targets
    ∧ warned s' = warned s ++ (trace ≫= warningOf).
Proof.
  revert s. induction targets as [|target targets IH]; intros s.
  - exists [], s, []. cbn. by rewrite !app_nil_r.
  - rewrite firstWins_cons.
    destruct (attempt_log worker transformResult target s)
      as (outcome & s1 & -> & Hinv & Hlog & _).
    destruct (accepted truthy transformResult (target, outcome)) as [result|].
    + exists [result], s1, [(target, outcome)]. split; [done|]. split; [done|].
      split; [by apply prefix_cons, prefix_nil|].
      by rewrite Hlog, bind_cons, app_nil_r.
    + destruct (IH s1) as (rs & s' & trace & -> & Hinv' & Hpre & Hlog').
      exists rs, s', ((target, outcome) :: trace). split; [done|].
      split; [by rewrite Hinv', Hinv, <- app_assoc|].
      split; [by apply prefix_cons|].
      by rewrite Hlog', Hlog, bind_cons, <- app_assoc.
Qed.

(** Whatever the combiner, a dispatch on a resolved script returns, calls a
    prefix of the candidates, and logs the failures of its calls. *)
Lemma accumulateResults_calls context worker transformResult combineResult
    (getRealDocParams : unit → K) (eachVirtualDocParams : XDocs → list K)
    (sourceScript : SourceScript Snapshot) s :
  ∃ rs s' trace,
    accumulateResults truthy context worker transformResult combineResult
      getRealDocParams eachVirtualDocParams sourceScript s = (Returned rs, s')
    ∧ invoked s' = invoked s ++ trace
    ∧ trace.*1 `prefix_of`
        candidates context sourceScript getRealDocParams eachVirtualDocParams
    ∧ warned s' = warned s ++ (trace ≫= warningOf).
Proof.
  destruct combineResult as [combine|].
  - rewrite accumulateResults_collectAll.
    destruct (collectAll_trace worker transformResult
                (candidates context sourceScript getRealDocParams eachVirtualDocParams) [] s)
      as (s' & trace & -> & Hinv & Htargets & Hlog).
    eexists _, s', trace. split; [done|]. split; [done|]. split; [|done].
    by rewrite Htargets.
  - rewrite accumulateResults_firstWins. apply firstWins_log.
Qed.

Lemma languageFeatureWorker_calls context worker transformResult combineResult uri
    (getRealDocParams : unit → K) (eachVirtualDocParams : XDocs → list K)
    (sourceScript : SourceScript Snapshot) s :
  scripts context !! uri = Some sourceScript →
  ∃ r s' trace,
    languageFeatureWorker truthy context uri getRealDocParams eachVirtualDocParams
      worker transformResult combineResult s = (Returned r, s')
    ∧ invoked s' = invoked s ++ trace
    ∧ trace.*1 `prefix_of`
        candidates context sourceScript getRealDocParams eachVirtualDocParams
    ∧ warned s' = warned s ++ (trace ≫= warningOf).
Proof.
  intros Hscript. unfold languageFeatureWorker. rewrite Hscript, bind_run.
  destruct (accumulateResults_calls context worker transformResult combineResult
              getRealDocParams eachVirtualDocParams sourceScript s)
    as (rs & s' & trace & -> & Hinv & Hpre & Hlog).
  rewrite ret_run. by eexists _, s', trace.
Qed.

(** The enabled entries are the registry entries, at their index, whose
    instance is not disabled. *)
Lemma elem_of_enabledEntries context (entry : XEntry) :
  entry ∈ enabledEntries context
  ↔ plugins context !! entry.1 = Some entry.2
    ∧ instanceId entry.2.2 ∉ disabledServicePlugins context.
Proof.
  unfold enabledEntries, pluginEntries. rewrite list_elem_of_filter, list_elem_of_lookup.
  destruct entry as [i p]. cbn [fst snd]. split.
  - intros [Hen [j Hj]]. rewrite list_lookup_imap in Hj.
    destruct (plugins context !! j) as [q|] eqn:Hq; [|done].
    cbn in Hj. injection Hj as -> ->. done.
  - intros [Hi Hen]. split; [done|]. exists i. by rewrite list_lookup_imap, Hi.
Qed.

Lemma elem_of_candidates context (sourceScript : SourceScript Snapshot)
    (getRealDocParams : unit → K) (eachVirtualDocParams : XDocs → list K)
    (target : XTarget) :
  target ∈ candidates context sourceScript getRealDocParams eachVirtualDocParams →
  (tg_pluginIndex target, tg_plugin target) ∈ enabledEntries context
  ∧ match generated sourceScript with
    | Some root =>
        ∃ docs, docs ∈ forEachEmbeddedDocument context sourceScript root
                ∧ tg_map target = Some docs
                ∧ tg_document target = docs.1.2
                ∧ tg_params target ∈ eachVirtualDocParams docs
    | None =>
        tg_map target = None
        ∧ tg_document target
          = documents_get context (ss_id sourceScript) (ss_languageId sourceScript)
              (ss_snapshot sourceScript)
        ∧ tg_params target = getRealDocParams ()
    end.
Proof.
  unfold candidates. destruct (generated sourceScript) as [root|].
  - intros (docs & Hin & Hdocs)%list_elem_of_bind.
    apply list_elem_of_bind in Hin as (mappedArg & Hin & Harg).
    apply list_elem_of_fmap in Hin as ([i p] & -> & Hentry).
    split; [done|]. by exists docs.
  - intros ([i p] & -> & Hentry)%list_elem_of_fmap. done.
Qed.

Lemma prefix_Forall_elem {A} (P : A → Prop) (xs ys : list A) :
  xs `prefix_of` ys → (∀ y, y ∈ ys → P y) → Forall P xs.
Proof.
  intros [rest ->] Hall. apply Forall_forall. intros x Hx. apply Hall.
  apply elem_of_app. by left.
Qed.

(** X1. With a combiner, a dispatch on a resolved script calls every
    candidate exactly once, in the order of the loops (embedded documents in
    the walker's order, parameter sets, enabled plugins in registration
    order), whatever the earlier calls gave; it returns the combiner applied
    to the contributions of those calls, in call order, and nothing when no
    call contributed. *)
Theorem combiner_runs_every_candidate context worker transformResult
    (combine : list T → T) uri
    (getRealDocParams : unit → K) (eachVirtualDocParams : XDocs → list K)
    (sourceScript : SourceScript Snapshot) s :
  scripts context !! uri = Some sourceScript →
  ∃ s' trace,
    languageFeatureWorker truthy context uri getRealDocParams eachVirtualDocParams
      worker transformResult (Some combine) s
    = (Returned
         match omap (accepted truthy transformResult) trace with
         | [] => None
         | first :: more => Some (combine (first :: more))
         end, s')
    ∧ invoked s' = invoked s ++ trace
    ∧ trace.*1 = candidates context sourceScript getRealDocParams eachVirtualDocParams.
Proof.
  intros Hscript. unfold languageFeatureWorker.
  rewrite Hscript, bind_run, accumulateResults_collectAll.
  destruct (collectAll_trace worker transformResult
              (candidates context sourceScript getRealDocParams eachVirtualDocParams) [] s)
    as (s' & trace & -> & Hinv & Htargets & _).
  exists s', trace. split; [|done].
  rewrite ret_run, app_nil_l. unfold returnValue.
  by destruct (omap (accepted truthy transformResult) trace).
Qed.

(** X2. Whatever the combiner, every worker call of a dispatch is made for a
    plugin of the registry, with the index it is registered at, and never for
    a plugin whose instance is in the disabled set. *)
Theorem calls_only_enabled_registered_plugins context worker transformResult
    combineResult uri
    (getRealDocParams : unit → K) (eachVirtualDocParams : XDocs → list K)
    (sourceScript : SourceScript Snapshot) s :
  scripts context !! uri = Some sourceScript →
  ∃ r s' trace,
    languageFeatureWorker truthy context uri getRealDocParams eachVirtualDocParams
      worker transformResult combineResult s = (Returned r, s')
    ∧ invoked s' = invoked s ++ trace
    ∧ Forall (λ call : XTarget * Outcome Err (JsVal T),
                plugins context !! tg_pluginIndex call.1 = Some (tg_plugin call.1)
                ∧ instanceId (tg_plugin call.1).2 ∉ disabledServicePlugins context)
             trace.
Proof.
  intros Hscript.
  destruct (languageFeatureWorker_calls context worker transformResult combineResult uri
              getRealDocParams eachVirtualDocParams sourceScript s Hscript)
    as (r & s' & trace & Hrun & Hinv & Hpre & _).
  exists r, s', trace. split; [done|]. split; [done|].
  apply Forall_fmap with (f := fst)
    (P := λ target : XTarget,
            plugins context !! tg_pluginIndex target = Some (tg_plugin target)
            ∧ instanceId (tg_plugin target).2 ∉ disabledServicePlugins context).
  eapply prefix_Forall_elem; [exact Hpre|].
  intros target [Hentry _]%elem_of_candidates.
  by apply elem_of_enabledEntries in Hentry.
Qed.


(** X4. A dispatch logs one warning for each of its worker calls that
    threw, in call order, and nothing else: the warning carries the message
    built from the plugin's name, its registry index and the URI of the
    document of the call, and the error thrown. *)
Theorem failures_logged_once_each context worker transformResult combineResult uri
    (getRealDocParams : unit → K) (eachVirtualDocParams : XDocs → list K) s :
  ∃ r s' trace,
    languageFeatureWorker truthy context uri getRealDocParams eachVirtualDocParams
      worker transformResult combineResult s = (Returned r, s')
    ∧ invoked s' = invoked s ++ trace
    ∧ warned s' = warned s ++ (trace ≫= warningOf)
    ∧ length (warned s')
      = length (warned s)
        + length (filter (λ call : XTarget * Outcome Err (JsVal T),
                            Is_true (threw call.2)) trace).
Proof.
  assert (Hcount : ∀ trace : list (XTarget * Outcome Err (JsVal T)),
            length (trace ≫= warningOf)
            = length (filter (λ call : XTarget * Outcome Err (JsVal T),
                                Is_true (threw call.2)) trace)).
  { induction trace as [|[target [value|err]] trace IH]; [done| |].
    - rewrite bind_cons, filter_cons_False by (by intros []). exact IH.
    - rewrite bind_cons, filter_cons_True by done. cbn. by rewrite IH. }
  destruct (scripts context !! uri) as [sourceScript|] eqn:Hscript.
  - destruct (languageFeatureWorker_calls context worker transformResult combineResult uri
                getRealDocParams eachVirtualDocParams sourceScript s Hscript)
      as (r & s' & trace & Hrun & Hinv & _ & Hlog).
    exists r, s', trace. split; [done|]. split; [done|]. split; [done|].
    by rewrite Hlog, length_app, Hcount.
  - exists None, s, []. unfold languageFeatureWorker. rewrite Hscript.
    split; [done|]. cbn. rewrite !app_nil_r. split; [done|]. split; [done|]. lia.
Qed.

End DispatchTraceFacts.

(** ** The whole-document worker *)

Section DocumentWorkerFacts.

Context {Snapshot CodeInformation Mapping World Err T : Type}.
Context (truthy : T → bool).

Abbreviation DContext := (LanguageServiceContext Snapshot CodeInformation Mapping).
Abbreviation DDocs := (DocumentsAndMap CodeInformation Mapping).
Abbreviation DRun := (Run (World := World) (Err := Err) (T := T) (K := unit)
                        (CodeInformation := CodeInformation) (Mapping := Mapping)).
Abbreviation DTarget := (Target (K := unit) (CodeInformation := CodeInformation)
                           (Mapping := Mapping)).

Implicit Types (context : DContext) (valid : DDocs → bool)
  (worker : LanguageServicePlugin * LanguageServicePluginInstance → TextDocument
            → World → Outcome Err (JsVal T) * World)
  (transformResult : T → option DDocs → option T)
  (combineResult : option (list T → T)) (s : DRun).

Lemma bind_nil_all {A B} (f : A → list B) (xs : list A) :
  (∀ x, x ∈ xs → f x = []) → xs ≫= f = [].
Proof.
  induction xs as [|x xs IH]; intros Hall; [done|].
  rewrite bind_cons, Hall, IH; [done| |by left].
  intros y Hy. apply Hall. by right.
Qed.

(** X5. On a script with generated code, every worker call of
    [documentFeatureWorker] is made on the embedded document of a tuple that
    the walker emits and that [valid] accepts: a tuple [valid] rejects is
    offered to no plugin. *)
Theorem document_worker_calls_valid_documents context uri valid worker
    transformResult combineResult (sourceScript : SourceScript Snapshot) root s :
  scripts context !! uri = Some sourceScript →
  generated sourceScript = Some root →
  ∃ r s' trace,
    documentFeatureWorker truthy context uri valid worker transformResult combineResult s
    = (Returned r, s')
    ∧ invoked s' = invoked s ++ trace
    ∧ Forall (λ call : DTarget * Outcome Err (JsVal T),
                ∃ docs, docs ∈ forEachEmbeddedDocument context sourceScript root
                        ∧ valid docs = true
                        ∧ tg_map call.1 = Some docs
                        ∧ tg_document call.1 = docs.1.2)
             trace.
Proof.
  intros Hscript Hgen. unfold documentFeatureWorker.
  destruct (languageFeatureWorker_calls truthy context
              (λ plugin document _ _, worker plugin document)
              transformResult combineResult uri (λ _, ())
              (λ map, if valid map then [()] else []) sourceScript s Hscript)
    as (r & s' & trace & Hrun & Hinv & Hpre & _).
  exists r, s', trace. split; [done|]. split; [done|].
  apply Forall_fmap with (f := fst)
    (P := λ target : DTarget,
            ∃ docs, docs ∈ forEachEmbeddedDocument context sourceScript root
                    ∧ valid docs = true
                    ∧ tg_map target = Some docs
                    ∧ tg_document target = docs.1.2).
  eapply prefix_Forall_elem; [exact Hpre|].
  intros target [_ Hin]%elem_of_candidates. rewrite Hgen in Hin.
  destruct Hin as (docs & Hdocs & Hmap & Hdoc & Hparams).
  exists docs. split; [done|]. split; [|done].
  destruct (valid docs); [done|]. by apply elem_of_nil in Hparams.
Qed.

(** X6. On a script with generated code, when [valid] rejects every tuple
    the walker emits, [documentFeatureWorker] returns nothing and leaves the
    run as it was: no worker is called, with or without a combiner. *)
Theorem document_worker_nothing_valid context uri valid worker
    transformResult combineResult (sourceScript : SourceScript Snapshot) root s :
  scripts context !! uri = Some sourceScript →
  generated sourceScript = Some root →
  (∀ docs, docs ∈ forEachEmbeddedDocument context sourceScript root → valid docs = false) →
  documentFeatureWorker truthy context uri valid worker transformResult combineResult s
  = (Returned None, s).
Proof.
  intros Hscript Hgen Hnone. unfold documentFeatureWorker, languageFeatureWorker.
  rewrite Hscript, bind_run.
  assert (Hcands : candidates context sourceScript (λ _, ())
                     (λ map : DDocs, if valid map then [()] else []) = []).
  { unfold candidates. rewrite Hgen. apply bind_nil_all.
    intros docs Hdocs. by rewrite (Hnone docs Hdocs). }
  destruct combineResult as [combine|].
  - by rewrite accumulateResults_collectAll, Hcands.
  - by rewrite accumulateResults_firstWins, Hcands.
Qed.

(** X7. On a script without generated code [documentFeatureWorker] never
    consults [valid]: with any two predicates it does the same. *)
Theorem document_worker_plain_ignores_valid context uri valid valid' worker
    transformResult combineResult (sourceScript : SourceScript Snapshot) s :
  scripts context !! uri = Some sourceScript →
  generated sourceScript = None →
  documentFeatureWorker truthy context uri valid worker transformResult combineResult s
  = documentFeatureWorker truthy context uri valid' worker transformResult combineResult s.
Proof.
  intros Hscript Hgen. unfold documentFeatureWorker, languageFeatureWorker.
  rewrite Hscript. unfold accumulateResults. by rewrite Hgen.
Qed.

End DocumentWorkerFacts.

(** ** Range projections and linked positions *)

Section RangeFacts.

Context {CodeInformation Mapping : Type}.
Context (getSourceStartEnd getGeneratedStartEnd :
           SourceMap CodeInformation Mapping → nat → nat → bool
           → option (CodeInformation → bool) → list (nat * nat)).

(** X8. When the map relates the offsets of a generated range to exactly
    one pair of source offsets, relates that pair back to exactly the
    generated offsets, and the source buffer converts both source offsets to
    positions and back unchanged, then [getSourceRange] gives the source range
    at those offsets and [getGeneratedRange] of it gives the embedded buffer's
    range at the original offsets. *)
Theorem range_round_trip (sourceDocument embeddedDocument : TextDocument)
    (map : SourceMap CodeInformation Mapping) (range : Range)
    (filter filter' : option (CodeInformation → bool)) (sourceStart sourceEnd : nat) :
  getSourceStartEnd map (offsetAt embeddedDocument (range_start range))
    (offsetAt embeddedDocument (range_end range)) true filter
  = [(sourceStart, sourceEnd)] →
  getGeneratedStartEnd map sourceStart sourceEnd true filter'
  = [(offsetAt embeddedDocument (range_start range),
      offsetAt embeddedDocument (range_end range))] →
  offsetAt sourceDocument (positionAt sourceDocument sourceStart) = sourceStart →
  offsetAt sourceDocument (positionAt sourceDocument sourceEnd) = sourceEnd →
  getSourceRange getSourceStartEnd (sourceDocument, embeddedDocument, map) range filter
  = Some (mkRange (positionAt sourceDocument sourceStart)
                  (positionAt sourceDocument sourceEnd))
  ∧ getGeneratedRange getGeneratedStartEnd (sourceDocument, embeddedDocument, map)
      (mkRange (positionAt sourceDocument sourceStart)
               (positionAt sourceDocument sourceEnd)) filter'
    = Some (mkRange
              (positionAt embeddedDocument (offsetAt embeddedDocument (range_start range)))
              (positionAt embeddedDocument (offsetAt embeddedDocument (range_end range)))).
Proof.
  intros Hto Hback Hstart Hend.
  unfold getSourceRange, getGeneratedRange, getSourceRanges, getGeneratedRanges.
  rewrite Hto. cbn [fmap list_fmap fst snd range_start range_end]. split; [done|].
  by rewrite Hstart, Hend, Hback.
Qed.

(** X9. The positions the three point projections yield are, read back as
    offsets of the buffer they belong to, exactly the offsets the map yielded,
    one position per offset and in the same order, whenever that buffer
    converts each of these offsets to a position and back unchanged. *)
Theorem positions_denote_mapped_offsets (sourceDocument embeddedDocument : TextDocument)
    (map : SourceMap CodeInformation Mapping) (linkedMap : LinkedCodeMap)
    (position : Position) (filter : option (CodeInformation → bool)) :
  ((∀ offset,
      offset ∈ (getSourceOffsets map (offsetAt embeddedDocument position)
                  (filterOrDefault filter)).*1 →
      offsetAt sourceDocument (positionAt sourceDocument offset) = offset) →
   offsetAt sourceDocument
     <$> getSourcePositions (sourceDocument, embeddedDocument, map) position filter
   = (getSourceOffsets map (offsetAt embeddedDocument position) (filterOrDefault filter)).*1)
  ∧ ((∀ offset,
        offset ∈ (getGeneratedOffsets map (offsetAt sourceDocument position)
                    (filterOrDefault filter)).*1 →
        offsetAt embeddedDocument (positionAt embeddedDocument offset) = offset) →
     offsetAt embeddedDocument
       <$> getGeneratedPositions (sourceDocument, embeddedDocument, map) position filter
     = (getGeneratedOffsets map (offsetAt sourceDocument position)
          (filterOrDefault filter)).*1)
  ∧ ((∀ offset,
        offset ∈ getLinkedOffsets linkedMap (offsetAt sourceDocument position) →
        offsetAt sourceDocument (positionAt sourceDocument offset) = offset) →
     offsetAt sourceDocument <$> getLinkedCodePositions sourceDocument linkedMap position
     = getLinkedOffsets linkedMap (offsetAt sourceDocument position)).
Proof.
  assert (Hmap : ∀ (document : TextDocument) (offsets : list nat),
            (∀ offset, offset ∈ offsets →
               offsetAt document (positionAt document offset) = offset) →
            offsetAt document <$> (positionAt document <$> offsets) = offsets).
  { intros document offsets. induction offsets as [|o os IH]; intros Hall; [done|].
    rewrite !fmap_cons, Hall by (by left). f_equal. apply IH.
    intros o' Ho'. apply Hall. by right. }
  assert (Hpairs : ∀ (document : TextDocument) (mapped : list (nat * Mapping)),
            (∀ offset, offset ∈ mapped.*1 →
               offsetAt document (positionAt document offset) = offset) →
            offsetAt document
              <$> ((λ pair : nat * Mapping, positionAt document pair.1) <$> mapped)
            = mapped.*1).
  { intros document mapped Hall. rewrite <- (Hmap document _ Hall).
    by rewrite <- !list_fmap_compose. }
  unfold getSourcePositions, getGeneratedPositions, getLinkedCodePositions.
  repeat split; intros Hall.
  - by apply Hpairs.
  - by apply Hpairs.
  - by apply Hmap.
Qed.

End RangeFacts.

(** ** More on the level-indexed view *)

Section LevelExtraFacts.

Context {Snapshot CodeInformation Mapping : Type}.

Implicit Types (context : LanguageServiceContext Snapshot CodeInformation Mapping)
  (sourceScript : SourceScript Snapshot)
  (root node child : VirtualCode Snapshot) (sourceFileUri : URI).

(** X10. [getEmbeddedFilesByLevel] never runs into the [TypeError] of
    iterating a missing level: for a negative level it returns [undefined],
    and for every other level it returns an array of codes. *)
Theorem level_view_never_fails context sourceFileUri root (level : Z) :
  ((level < 0)%Z →
   getEmbeddedFilesByLevel context sourceFileUri root level = LevelUndefined)
  ∧ ((0 ≤ level)%Z →
     ∃ files, getEmbeddedFilesByLevel context sourceFileUri root level = LevelFiles files)
  ∧ getEmbeddedFilesByLevel context sourceFileUri root level ≠ LevelTypeError.
Proof.
  assert (Hneg : (level < 0)%Z →
                 getEmbeddedFilesByLevel context sourceFileUri root level = LevelUndefined).
  { intros Hlevel. unfold getEmbeddedFilesByLevel.
    rewrite levelLoop_equation_1. cbn [levelLoop_unfold_clause_1 length].
    destruct (decide _) as [Hgt | Hle]; [|lia]. cbn [levelLoop_unfold_clause_1].
    destruct (decide (0 ≤ level)%Z); [lia|done]. }
  split; [exact Hneg|]. split.
  - intros Hlevel. eexists. by apply getEmbeddedFilesByLevel_levelsOf.
  - destruct (decide (0 ≤ level)%Z) as [Hlevel | Hlevel].
    + by rewrite getEmbeddedFilesByLevel_levelsOf.
    + rewrite Hneg by lia. done.
Qed.

Lemma levelsOf_subnode context sourceFileUri root (k : nat) node :
  node ∈ levelsOf context sourceFileUri root k →
  subnode node root
  ∧ (0 < k → encodeEmbeddedDocumentUri context sourceFileUri (vc_id node)
               ∉ disabledEmbeddedDocumentUris context).
Proof.
  revert node. induction k as [|k IH]; intros node.
  - cbn [levelsOf]. intros ->%list_elem_of_singleton. split; [constructor|lia].
  - cbn [levelsOf]. intros Hin.
    apply list_elem_of_In, in_flat_map in Hin as (parent & Hparent & Hin).
    apply list_elem_of_In in Hparent, Hin.
    apply list_elem_of_filter in Hin as [Hen Hchild].
    split; [|done].
    eapply subnode_trans; [|by apply IH].
    eapply subnode_below; [exact Hchild|constructor].
Qed.

(** X11. Every code of a level above 0 of the view taken for a source
    script is a node of the tree whose encoded identity is not disabled, and
    the walker over the same tree emits its document. *)
Theorem level_codes_are_walked context sourceScript root (level : Z) files node :
  (0 < level)%Z →
  getEmbeddedFilesByLevel context (ss_id sourceScript) root level = LevelFiles files →
  node ∈ files →
  subnode node root
  ∧ (encodeEmbeddedDocumentUri context (ss_id sourceScript) (vc_id node)
       ∉ disabledEmbeddedDocumentUris context)
  ∧ documentsOf context sourceScript node
      ∈ forEachEmbeddedDocument context sourceScript root.
Proof.
  intros Hlevel Hfiles Hnode.
  rewrite getEmbeddedFilesByLevel_levelsOf in Hfiles by lia.
  injection Hfiles as <-.
  apply levelsOf_subnode in Hnode as [Hsub Hen].
  specialize (Hen ltac:(lia)).
  split; [done|]. split; [done|]. apply elem_of_walk. by exists node.
Qed.

Lemma height_child child node :
  child ∈ children node → S (height child) ≤ height node.
Proof.
  destruct node as [i l s [codes|]]; unfold children; cbn [embeddedCodes height];
    [|by intros ?%elem_of_nil].
  induction codes as [|c cs IH]; [by intros ?%elem_of_nil|].
  intros [->|Hin]%elem_of_cons; cbn [foldr]; [lia|].
  specialize (IH Hin). lia.
Qed.

Lemma levelsOf_height context sourceFileUri root (k : nat) node :
  node ∈ levelsOf context sourceFileUri root k → height node + k ≤ height root.
Proof.
  revert node. induction k as [|k IH]; intros node.
  - cbn [levelsOf]. intros ->%list_elem_of_singleton. lia.
  - cbn [levelsOf]. intros Hin.
    apply list_elem_of_In, in_flat_map in Hin as (parent & Hparent & Hin).
    apply list_elem_of_In in Hparent, Hin.
    apply list_elem_of_filter in Hin as [_ Hchild].
    apply height_child in Hchild. specialize (IH _ Hparent). lia.
Qed.

(** X12. A level deeper than the tree is empty: for every level greater
    than the height of the root the view is the empty array. *)
Theorem level_beyond_height_is_empty context sourceFileUri root (level : Z) :
  (Z.of_nat (height root) < level)%Z →
  getEmbeddedFilesByLevel context sourceFileUri root level = LevelFiles [].
Proof.
  intros Hlevel. rewrite getEmbeddedFilesByLevel_levelsOf by lia. f_equal.
  destruct (levelsOf context sourceFileUri root (Z.to_nat level)) as [|node files] eqn:Hfiles;
    [done|].
  assert (Hin : node ∈ levelsOf context sourceFileUri root (Z.to_nat level))
    by (rewrite Hfiles; by left).
  apply levelsOf_height in Hin. lia.
Qed.

End LevelExtraFacts.


(** ** The npm file system: strings and package names *)

Section StringFacts.

Implicit Types (s p rest : string) (c sep : Ascii.ascii).

Lemma append_cons c s rest : String c s +:+ rest = String c (s +:+ rest).
Proof. done. Qed.

Lemma append_empty_l s : EmptyString +:+ s = s.
Proof. done. Qed.

Lemma append_empty_r s : s +:+ EmptyString = s.
Proof. induction s as [|c s IH]; [done|]. by rewrite append_cons, IH. Qed.

Lemma append_assoc s p rest : (s +:+ p) +:+ rest = s +:+ (p +:+ rest).
Proof. induction s as [|c s IH]; [done|]. by rewrite !append_cons, IH. Qed.

Lemma length_append s p : String.length (s +:+ p) = String.length s + String.length p.
Proof. induction s as [|c s IH]; [done|]. rewrite append_cons. cbn. by rewrite IH. Qed.

Lemma startsWith_spec s p : startsWith s p = true ↔ ∃ rest, s = p +:+ rest.
Proof.
  revert s. induction p as [|c p IH]; intros s.
  - split; [intros _; by exists s | intros _; by destruct s].
  - destruct s as [|d s]; cbn [startsWith].
    + split; [done|]. by intros [rest ?].
    + rewrite andb_true_iff, IH, Ascii.eqb_eq. split.
      * intros [-> [rest ->]]. by exists rest.
      * intros [rest Heq]. rewrite append_cons in Heq. injection Heq as -> ->.
        split; [done|]. by exists rest.
Qed.

Lemma sliceFrom_append s rest : sliceFrom (String.length s) (s +:+ rest) = rest.
Proof. induction s as [|c s IH]; [by destruct rest|]. by rewrite append_cons. Qed.

Lemma splitOn_nonempty sep s : splitOn sep s ≠ [].
Proof.
  destruct s as [|c s]; [done|]. cbn [splitOn].
  destruct (Ascii.eqb c sep); [done|]. by destruct (splitOn sep s).
Qed.

(** Joining the parts of a split gives the string back. *)
Lemma joinWith_splitOn sep s : joinWith sep (splitOn sep s) = s.
Proof.
  induction s as [|c s IH]; [done|]. cbn [splitOn].
  destruct (Ascii.eqb c sep) eqn:Hc.
  - apply Ascii.eqb_eq in Hc as ->.
    pose proof (splitOn_nonempty sep s) as Hne.
    destruct (splitOn sep s) as [|part parts]; [done|].
    change (joinWith sep (EmptyString :: part :: parts))
      with (EmptyString +:+ String sep (joinWith sep (part :: parts))).
    by rewrite IH.
  - pose proof (splitOn_nonempty sep s) as Hne.
    destruct (splitOn sep s) as [|part parts]; [done|].
    destruct parts as [|part' parts].
    + cbn [joinWith] in *. by rewrite IH.
    + change (joinWith sep (String c part :: part' :: parts))
        with (String c part +:+ String sep (joinWith sep (part' :: parts))).
      change (joinWith sep (part :: part' :: parts))
        with (part +:+ String sep (joinWith sep (part' :: parts))) in IH.
      by rewrite append_cons, IH.
Qed.

(** No part of a split contains the separator. *)
Lemma splitOn_parts sep s :
  Forall (λ part, lastIndexOf sep part = None) (splitOn sep s).
Proof.
  induction s as [|c s IH]; [by repeat constructor|]. cbn [splitOn].
  destruct (Ascii.eqb c sep) eqn:Hc; [by constructor|].
  destruct (splitOn sep s) as [|part parts]; [repeat constructor; cbn; by rewrite Hc|].
  apply Forall_cons in IH as [Hpart Hparts]. constructor; [|done].
  cbn [lastIndexOf]. by rewrite Hpart, Hc.
Qed.

Lemma lastIndexOf_append_None c s p :
  lastIndexOf c (s +:+ p) = None ↔ lastIndexOf c s = None ∧ lastIndexOf c p = None.
Proof.
  induction s as [|d s IH].
  { rewrite append_empty_l. split; [intros Hp; by split | by intros [_ Hp]]. }
  rewrite append_cons. cbn [lastIndexOf].
  destruct (lastIndexOf c (s +:+ p)) as [i|] eqn:Happ.
  - split; [done|]. intros [Hs Hp].
    destruct (lastIndexOf c s); [done|].
    assert (@None nat = None ∧ lastIndexOf c p = None) as Hboth by done.
    apply IH in Hboth. done.
  - destruct (proj1 IH eq_refl) as [-> ->].
    destruct (Ascii.eqb d c); [split; [done | by intros [? _]] | done].
Qed.

(** A string without the separator is its own single part; a separator
    after such a string starts the next part. *)
Lemma splitOn_whole sep s : lastIndexOf sep s = None → splitOn sep s = [s].
Proof.
  induction s as [|c s IH]; [done|]. cbn [lastIndexOf splitOn].
  destruct (lastIndexOf sep s) as [i|]; [done|].
  destruct (Ascii.eqb c sep); [done|]. intros _. by rewrite IH.
Qed.

Lemma splitOn_append sep s rest :
  lastIndexOf sep s = None →
  splitOn sep (s +:+ String sep rest) = s :: splitOn sep rest.
Proof.
  induction s as [|c s IH].
  - intros _. rewrite append_empty_l. cbn [splitOn]. by rewrite Ascii.eqb_refl.
  - cbn [lastIndexOf]. destruct (lastIndexOf sep s) as [i|]; [done|].
    destruct (Ascii.eqb c sep) eqn:Hc; [done|]. intros _.
    rewrite append_cons. cbn [splitOn]. by rewrite Hc, IH.
Qed.

(** Where the last occurrence of a character is: what precedes it has
    that many characters, and what follows it has no occurrence. *)
Lemma lastIndexOf_Some c s i :
  lastIndexOf c s = Some i →
  s = substringTo i s +:+ String c (sliceFrom (i + 1) s)
  ∧ String.length (substringTo i s) = i
  ∧ lastIndexOf c (sliceFrom (i + 1) s) = None.
Proof.
  revert i. induction s as [|d s IH]; intros i; [done|]. cbn [lastIndexOf].
  destruct (lastIndexOf c s) as [j|] eqn:Hs.
  - intros [= <-]. destruct (IH j eq_refl) as (Heq & Hlen & Hnone).
    cbn [substringTo sliceFrom Nat.add]. rewrite append_cons.
    split; [by rewrite <- Heq|]. split; [cbn; by rewrite Hlen|done].
  - destruct (Ascii.eqb d c) eqn:Hd; [|done]. intros [= <-].
    apply Ascii.eqb_eq in Hd as ->. done.
Qed.

End StringFacts.

Section PackageNameFacts.

Implicit Types (path modName pkgName : string) (version : option string)
  (getPackageVersion : option (string → option string)).

Lemma slash_string rest : "/" +:+ rest = String slash rest.
Proof. done. Qed.

Lemma startsWith_slash rest : startsWith (String slash rest) "/" = true.
Proof. by destruct rest. Qed.

Lemma at_string rest : "@" +:+ rest = String atSign rest.
Proof. done. Qed.

(** The module name, before the version is split off. *)
Lemma resolvePackageName_inv getPackageVersion path modName pkgName version :
  resolvePackageName getPackageVersion path = Some (modName, pkgName, version) →
  ∃ part0 others,
    splitOn slash path = part0 :: others
    ∧ (if startsWith part0 "@"
       then ∃ part1 others', others = part1 :: others' ∧ nonEmpty part1 = true
                             ∧ modName = part0 +:+ "/" +:+ part1
       else modName = part0)
    ∧ (pkgName, version)
      = match lastIndexOf atSign modName with
        | Some i =>
            if 1 <=? i
            then (substringTo i modName, Some (sliceFrom (i + 1) modName))
            else (modName, None)
        | None => (modName, None)
        end.
Proof.
  unfold resolvePackageName.
  pose proof (splitOn_nonempty slash path) as Hne.
  destruct (splitOn slash path) as [|part0 others]; [done|]. cbn [lookup list_lookup].
  intros Hres. exists part0, others. split; [done|].
  destruct (startsWith part0 "@").
  - destruct others as [|part1 others']; cbn [lookup list_lookup] in Hres; [done|].
    destruct (nonEmpty part1) eqn:Hpart1; [|done].
    destruct (match lastIndexOf atSign (part0 +:+ "/" +:+ part1) with
              | Some i => _ | None => _ end) as [pkg ver] eqn:Hsplit.
    injection Hres as <- <- <-. split; [|done]. by exists part1, others'.
  - destruct (match lastIndexOf atSign part0 with
              | Some i => _ | None => _ end) as [pkg ver] eqn:Hsplit.
    injection Hres as <- <- <-. done.
Qed.

(** X13. The module name [resolvePackageName] returns is a prefix of the
    path, and what the callers take for the file path,
    [path.slice(resolved[0].length)], is the rest of the path: it is empty or
    starts with a slash. *)
Theorem resolved_module_is_path_prefix getPackageVersion path modName pkgName version :
  resolvePackageName getPackageVersion path = Some (modName, pkgName, version) →
  ∃ rest,
    path = modName +:+ rest
    ∧ sliceFrom (String.length modName) path = rest
    ∧ (rest = EmptyString ∨ startsWith rest "/" = true).
Proof.
  intros (part0 & others & Hsplit & Hmod & _)%resolvePackageName_inv.
  pose proof (joinWith_splitOn slash path) as Hjoin. rewrite Hsplit in Hjoin.
  assert (Hrest : ∀ parts : list string,
            ∃ rest, joinWith slash (modName :: parts) = modName +:+ rest
                    ∧ (rest = EmptyString ∨ startsWith rest "/" = true)).
  { intros [|part parts].
    - exists EmptyString. cbn [joinWith]. split; [by rewrite append_empty_r | by left].
    - exists (String slash (joinWith slash (part :: parts))).
      split; [done|]. right. apply startsWith_slash. }
  assert (Hpath : ∃ rest, path = modName +:+ rest
                          ∧ (rest = EmptyString ∨ startsWith rest "/" = true)).
  { destruct (startsWith part0 "@").
    - destruct Hmod as (part1 & others' & -> & _ & ->).
      destruct (Hrest others') as (rest & Heq & Hshape). exists rest. split; [|done].
      rewrite <- Hjoin, <- Heq. destruct others' as [|part2 others'].
      + by rewrite slash_string.
      + change (joinWith slash (part0 :: part1 :: part2 :: others'))
          with (part0 +:+ String slash (part1 +:+ String slash (joinWith slash (part2 :: others')))).
        change (joinWith slash ((part0 +:+ "/" +:+ part1) :: part2 :: others'))
          with ((part0 +:+ "/" +:+ part1) +:+ String slash (joinWith slash (part2 :: others'))).
        by rewrite slash_string, append_assoc, append_cons.
    - subst part0. destruct (Hrest others) as (rest & Heq & Hshape).
      exists rest. by rewrite <- Hjoin. }
  destruct Hpath as (rest & -> & Hshape). exists rest.
  split; [done|]. split; [apply sliceFrom_append|done].
Qed.

(** X14. The version [resolvePackageName] returns is the text after the
    last [@] of the module name, when that [@] is not the first character
    (the mark of a scope): then the package name is what precedes that [@] and
    is not empty, and the version has no [@]; otherwise the package name is the
    module name and there is no version. The answer of [getPackageVersion]
    never enters the result. *)
Theorem resolved_version_is_written_in_path getPackageVersion path modName pkgName version :
  resolvePackageName getPackageVersion path = Some (modName, pkgName, version) →
  match version with
  | Some written =>
      modName = pkgName +:+ "@" +:+ written
      ∧ pkgName ≠ EmptyString
      ∧ lastIndexOf atSign written = None
  | None =>
      pkgName = modName
      ∧ (lastIndexOf atSign modName = None ∨ lastIndexOf atSign modName = Some 0)
  end
  ∧ resolvePackageName None path = Some (modName, pkgName, version).
Proof.
  intros Hres. split.
  - apply resolvePackageName_inv in Hres as (part0 & others & _ & _ & Hsplit).
    destruct (lastIndexOf atSign modName) as [i|] eqn:Hat.
    + destruct (1 <=? i) eqn:Hi.
      * injection Hsplit as -> ->. apply Nat.leb_le in Hi.
        destruct (lastIndexOf_Some _ _ _ Hat) as (Heq & Hlen & Hnone).
        split; [by rewrite at_string|]. split; [|done].
        intros Hempty. rewrite Hempty in Hlen. cbn in Hlen. lia.
      * injection Hsplit as -> ->. apply Nat.leb_gt in Hi.
        split; [done|]. right. f_equal. lia.
    + injection Hsplit as -> ->. by split; [|left].
  - rewrite <- Hres. unfold resolvePackageName.
    destruct (splitOn slash path !! 0) as [part0|]; [|done].
    destruct (if startsWith part0 "@" then _ else _) as [name|]; [|done].
    by destruct (match lastIndexOf atSign name with
                 | Some i => _ | None => _ end) as [pkg [[|c ver]|]], getPackageVersion.
Qed.

(** X15. [resolvePackageName] returns [undefined] exactly for a path that
    names a scope without a package: an [@] and a scope, followed by nothing,
    or by a slash at which the path ends or another slash follows. *)
Theorem resolved_undefined_iff_scope_without_package getPackageVersion path :
  resolvePackageName getPackageVersion path = None
  ↔ ∃ scope,
      lastIndexOf slash scope = None
      ∧ (path = "@" +:+ scope
         ∨ ∃ rest, path = "@" +:+ scope +:+ "/" +:+ rest
                   ∧ (rest = EmptyString ∨ startsWith rest "/" = true)).
Proof.
  split.
  - unfold resolvePackageName.
    pose proof (splitOn_nonempty slash path) as Hne.
    pose proof (joinWith_splitOn slash path) as Hjoin.
    pose proof (splitOn_parts slash path) as Hparts.
    destruct (splitOn slash path) as [|part0 others]; [done|]. cbn [lookup list_lookup].
    apply Forall_cons in Hparts as [Hpart0 _].
    destruct (startsWith part0 "@") eqn:Hscoped.
    + apply startsWith_spec in Hscoped as [scope ->]. intros Hnone.
      exists scope. rewrite at_string in Hpart0. cbn [lastIndexOf] in Hpart0.
      split; [by destruct (lastIndexOf slash scope)|].
      destruct others as [|part1 others']; [left; by rewrite <- Hjoin|].
      cbn [lookup list_lookup] in Hnone. right.
      destruct part1 as [|c part1].
      * destruct others' as [|part2 others'].
        -- exists EmptyString. split; [|by left]. rewrite <- Hjoin.
           cbn [joinWith]. by rewrite append_assoc.
        -- exists (String slash (joinWith slash (part2 :: others'))).
           split; [|right; apply startsWith_slash]. rewrite <- Hjoin.
           change (joinWith slash (("@" +:+ scope) :: EmptyString :: part2 :: others'))
             with (("@" +:+ scope) +:+ String slash
                     (EmptyString +:+ String slash (joinWith slash (part2 :: others')))).
           by rewrite append_assoc.
      * cbn [nonEmpty] in Hnone.
        by destruct (match lastIndexOf atSign _ with
                     | Some i => _ | None => _ end) as [pkg ver].
    + intros Hnone.
      by destruct (match lastIndexOf atSign part0 with
                   | Some i => _ | None => _ end) as [pkg ver].
  - intros (scope & Hscope & Hpath).
    assert (Hhead : lastIndexOf slash ("@" +:+ scope) = None).
    { rewrite at_string. cbn [lastIndexOf]. by rewrite Hscope. }
    assert (Hscoped : startsWith ("@" +:+ scope) "@" = true)
      by (apply startsWith_spec; by exists scope).
    unfold resolvePackageName.
    destruct Hpath as [-> | (rest & -> & Hrest)].
    + rewrite (splitOn_whole _ _ Hhead). cbn [lookup list_lookup].
      by rewrite Hscoped.
    + rewrite <- append_assoc, slash_string, (splitOn_append _ _ _ Hhead).
      cbn [lookup list_lookup]. rewrite Hscoped.
      destruct Hrest as [-> | Hrest]; [done|].
      apply startsWith_spec in Hrest as [rest' ->].
      rewrite slash_string. cbn [splitOn]. by rewrite Ascii.eqb_refl.
Qed.

End PackageNameFacts.


(** ** The npm file system: paths, fetching and listing *)

Section CdnPathFacts.

(** X16. The default [getCdnPath] answers the empty string exactly for the
    path [/node_modules]; for a path under [/node_modules/] it answers the
    rest of the path with its leading slash, so every answer that is not empty
    starts with a slash; and [resolvePackageName] of such an answer has the
    empty module name, the empty package name and no version. *)
Theorem default_cdn_path_keeps_slash (path : string) :
  (defaultCdnPath path = Some EmptyString ↔ path = "/node_modules")
  ∧ (∀ rest, path = "/node_modules/" +:+ rest →
       defaultCdnPath path = Some ("/" +:+ rest))
  ∧ (∀ answer getPackageVersion,
       defaultCdnPath path = Some answer → answer ≠ EmptyString →
       startsWith answer "/" = true
       ∧ resolvePackageName getPackageVersion answer
         = Some (EmptyString, EmptyString, None)).
Proof.
  assert (Hunder : ∀ rest, defaultCdnPath ("/node_modules/" +:+ rest) = Some ("/" +:+ rest)).
  { intros rest. unfold defaultCdnPath.
    replace (String.eqb ("/node_modules/" +:+ rest) "/node_modules") with false
      by (symmetry; apply String.eqb_neq; by destruct rest).
    replace (startsWith ("/node_modules/" +:+ rest) "/node_modules/") with true
      by (symmetry; apply startsWith_spec; by exists rest).
    done. }
  assert (Hcases : ∀ answer, defaultCdnPath path = Some answer →
            (answer = EmptyString ∧ path = "/node_modules")
            ∨ ∃ rest, path = "/node_modules/" +:+ rest ∧ answer = "/" +:+ rest).
  { intros answer Hanswer.
    destruct (String.eqb_spec path "/node_modules") as [-> | Hne].
    - left. by injection Hanswer as <-.
    - destruct (startsWith path "/node_modules/") eqn:Hstarts.
      + apply startsWith_spec in Hstarts as [rest ->]. rewrite Hunder in Hanswer.
        injection Hanswer as <-. right. by exists rest.
      + unfold defaultCdnPath in Hanswer. rewrite Hstarts in Hanswer.
        apply String.eqb_neq in Hne. by rewrite Hne in Hanswer. }
  split; [|split].
  - split.
    + intros [[_ ->] | (rest & _ & Hrest)]%Hcases; [done|]. by destruct rest.
    + intros ->. done.
  - intros rest ->. apply Hunder.
  - intros answer getPackageVersion [[-> _] | (rest & _ & ->)]%Hcases Hne; [done|].
    split; [apply startsWith_spec; by exists rest|].
    unfold resolvePackageName. rewrite slash_string. cbn [splitOn].
    rewrite Ascii.eqb_refl. cbn [lookup list_lookup]. done.
Qed.

End CdnPathFacts.

Section NpmFileSystemFacts.

Context {Net Err : Type}.

(** X17. With the default [getCdnPath], whatever the inner operations do:
    for a path that is neither [/node_modules] nor under [/node_modules/],
    [stat] and [readFile] return [undefined] and [readDirectory] returns the
    empty array, none of them running an inner operation; and [stat] of
    [/node_modules] is a directory with size and times -1, again without an
    inner operation. *)
Theorem file_system_outside_node_modules
    (_stat : string → Fs (Net := Net) (Err := Err) (option FileStat))
    (_readFile : string → Fs (Net := Net) (Err := Err) (option string))
    (_readDirectory : string → Fs (Net := Net) (Err := Err) (list (string * nat)))
    (path : string) (net : Net) :
  (path ≠ "/node_modules" → startsWith path "/node_modules/" = false →
   stat defaultCdnPath _stat path net = (Returned None, net)
   ∧ readFile defaultCdnPath _readFile path net = (Returned None, net)
   ∧ readDirectory defaultCdnPath _readDirectory path net = (Returned [], net))
  ∧ stat defaultCdnPath _stat "/node_modules" net
    = (Returned (Some (mkFileStat 2 (-1) (-1) (-1))), net).
Proof.
  split; [|done]. intros Hne Hstarts.
  assert (Hpath : defaultCdnPath path = None).
  { unfold defaultCdnPath. rewrite Hstarts.
    by replace (String.eqb path "/node_modules") with false
      by (symmetry; by apply String.eqb_neq). }
  unfold stat, readFile, readDirectory. by rewrite Hpath.
Qed.

End NpmFileSystemFacts.

Section FetchFacts.

Context {Json Remote : Type}.
Context (fetch : string → Remote → FetchResponse Json * Remote).

Implicit Types (web : Web Json Remote) (url : string).

(** X18. [fetchText] sends at most one request for a URL. After a call for
    a URL its answer is cached, also when it is [undefined] (a failed or
    non-200 fetch); a cached URL is answered from the cache with no request
    and no change; a call never removes or changes the cached answer of
    another call; and a text is answered only from a response with status
    200. *)
Theorem fetchText_caches_every_answer web url :
  (∀ cached, textCache web !! url = Some cached →
     fetchText fetch url web = (cached, web))
  ∧ textCache (fetchText fetch url web).2 !! url = Some (fetchText fetch url web).1
  ∧ fetchText fetch url (fetchText fetch url web).2
    = ((fetchText fetch url web).1, (fetchText fetch url web).2)
  ∧ (∀ url' cached, textCache web !! url' = Some cached →
       textCache (fetchText fetch url web).2 !! url' = Some cached)
  ∧ (textCache web !! url = None →
     requested (fetchText fetch url web).2 = requested web ++ [url]
     ∧ ∀ text, (fetchText fetch url web).1 = Some text →
         ∃ json, (fetch url (remote web)).1 = Responded 200 (Some text) json).
Proof.
  assert (Hhit : ∀ w cached, textCache w !! url = Some cached →
                   fetchText fetch url w = (cached, w)).
  { intros w cached Hcached. unfold fetchText. by rewrite Hcached. }
  assert (Hstored : textCache (fetchText fetch url web).2 !! url
                    = Some (fetchText fetch url web).1).
  { unfold fetchText. destruct (textCache web !! url) as [cached|] eqn:Hcached; [done|].
    destruct (fetch url (remote web)) as [response remote']. cbn.
    by rewrite lookup_insert_eq. }
  split; [apply Hhit|]. split; [exact Hstored|]. split; [by apply Hhit|]. split.
  - intros url' cached Hcached. unfold fetchText.
    destruct (textCache web !! url) as [cached'|] eqn:Hurl; [done|].
    destruct (fetch url (remote web)) as [response remote']. cbn.
    rewrite lookup_insert_ne; [done|]. intros ->. congruence.
  - intros Hmiss. unfold fetchText. rewrite Hmiss.
    destruct (fetch url (remote web)) as [response remote']. cbn. split; [done|].
    intros text. destruct response as [|status body json]; [done|].
    destruct (status =? 200) eqn:Hstatus; [|done].
    apply Nat.eqb_eq in Hstatus as ->. intros ->. by exists json.
Qed.

(** X19. [fetchJson] caches in the same way, in a cache of its own: a URL
    fetched as text is requested again when it is fetched as JSON, and
    neither function touches the other's cache. *)
Theorem fetchJson_has_its_own_cache web url :
  (∀ cached, jsonCache web !! url = Some cached →
     fetchJson fetch url web = (cached, web))
  ∧ fetchJson fetch url (fetchJson fetch url web).2
    = ((fetchJson fetch url web).1, (fetchJson fetch url web).2)
  ∧ jsonCache (fetchText fetch url web).2 = jsonCache web
  ∧ textCache (fetchJson fetch url web).2 = textCache web
  ∧ (jsonCache web !! url = None →
     requested (fetchJson fetch url (fetchText fetch url web).2).2
     = requested (fetchText fetch url web).2 ++ [url]).
Proof.
  assert (Hhit : ∀ w cached, jsonCache w !! url = Some cached →
                   fetchJson fetch url w = (cached, w)).
  { intros w cached Hcached. unfold fetchJson. by rewrite Hcached. }
  assert (Hkeep : jsonCache (fetchText fetch url web).2 = jsonCache web).
  { unfold fetchText. destruct (textCache web !! url); [done|].
    by destruct (fetch url (remote web)). }
  split; [apply Hhit|]. split; [|split; [exact Hkeep|split]].
  - apply Hhit. unfold fetchJson.
    destruct (jsonCache web !! url) as [cached|] eqn:Hcached; [done|].
    destruct (fetch url (remote web)) as [response remote']. cbn.
    by rewrite lookup_insert_eq.
  - unfold fetchJson. destruct (jsonCache web !! url); [done|].
    by destruct (fetch url (remote web)).
  - intros Hmiss. unfold fetchJson at 1. rewrite Hkeep, Hmiss.
    by destruct (fetch url (remote (fetchText fetch url web).2)).
Qed.

End FetchFacts.


(** ** The npm file system: directory listings and package names of types *)

Section ListingFacts.

Implicit Types (names dirs : list string) (name dirPath base : string).

Lemma substringTo_append s rest : substringTo (String.length s) (s +:+ rest) = s.
Proof.
  induction s as [|c s IH]; [by destruct rest|].
  rewrite append_cons. cbn [String.length substringTo]. by rewrite IH.
Qed.

Lemma sliceFrom_after_separator s c rest :
  sliceFrom (String.length s + 1) (s +:+ String c rest) = rest.
Proof.
  induction s as [|d s IH]; [done|]. by rewrite append_cons.
Qed.

Lemma lastIndexOf_separator c s rest :
  lastIndexOf c rest = None →
  lastIndexOf c (s +:+ String c rest) = Some (String.length s).
Proof.
  intros Hrest. induction s as [|d s IH].
  - rewrite append_empty_l. cbn [lastIndexOf]. by rewrite Hrest, Ascii.eqb_refl.
  - rewrite append_cons. cbn [lastIndexOf]. by rewrite IH.
Qed.

Lemma lastIndexOf_starts c rest : lastIndexOf c (String c rest) ≠ None.
Proof.
  cbn [lastIndexOf]. destruct (lastIndexOf c rest); [done|].
  by rewrite Ascii.eqb_refl.
Qed.

(** [uniqueInOrder] keeps each value, once. *)
Lemma uniqueInOrder_spec (values : list string) :
  NoDup (uniqueInOrder values) ∧ ∀ value, value ∈ uniqueInOrder values ↔ value ∈ values.
Proof.
  unfold uniqueInOrder.
  assert (Hgen : ∀ seen : list string, NoDup seen →
            NoDup (foldl (λ seen value,
                            if decide (value ∈ seen) then seen else seen ++ [value])
                         seen values)
            ∧ ∀ value,
                value ∈ foldl (λ seen value,
                                 if decide (value ∈ seen) then seen else seen ++ [value])
                              seen values
                ↔ value ∈ seen ∨ value ∈ values).
  { induction values as [|v values IH]; intros seen Hseen.
    - cbn [foldl]. split; [done|]. intros value. rewrite elem_of_nil. tauto.
    - cbn [foldl]. destruct (decide (v ∈ seen)) as [Hin | Hout].
      + destruct (IH seen Hseen) as [Hnodup Helem]. split; [done|].
        intros value. rewrite Helem, elem_of_cons. split; [tauto|].
        intros [?|[->|?]]; tauto.
      + assert (Hseen' : NoDup (seen ++ [v])).
        { apply NoDup_app. split; [done|]. split; [|apply NoDup_singleton].
          intros x Hx ->%list_elem_of_singleton. done. }
        destruct (IH _ Hseen') as [Hnodup Helem]. split; [done|].
        intros value. rewrite Helem, elem_of_app, list_elem_of_singleton, elem_of_cons.
        tauto. }
  destruct (Hgen [] (NoDup_nil_2)) as [Hnodup Helem]. split; [done|].
  intros value. rewrite Helem, elem_of_nil. tauto.
Qed.

Lemma elem_of_uniqueInOrder (values : list string) value :
  value ∈ uniqueInOrder values ↔ value ∈ values.
Proof. apply uniqueInOrder_spec. Qed.

Lemma directoryEntries_files names dirPath base :
  (base, 1) ∈ directoryEntries names dirPath
  ↔ ∃ name, name ∈ names
            ∧ substringTo (default 0 (lastIndexOf slash name)) name = dirPath
            ∧ base = sliceFrom (String.length dirPath + 1) name.
Proof.
  unfold directoryEntries. rewrite elem_of_app, !list_elem_of_fmap. split.
  - intros [(f & [= ->] & Hf) | (f & [=] & _)].
    apply list_elem_of_fmap in Hf as (name & -> & Hname).
    apply list_elem_of_filter in Hname as [Hdir Hin]. by exists name.
  - intros (name & Hin & Hdir & ->). left. eexists. split; [done|].
    apply list_elem_of_fmap. exists name. split; [done|].
    by apply list_elem_of_filter.
Qed.

Lemma directoryEntries_dirs names dirPath dir :
  (dir, 2) ∈ directoryEntries names dirPath
  ↔ ∃ name, name ∈ names
            ∧ startsWith name (dirPath +:+ "/") = true
            ∧ 2 ≤ length (splitOn slash (sliceFrom (String.length dirPath + 1) name))
            ∧ dir = default EmptyString
                      (splitOn slash (sliceFrom (String.length dirPath + 1) name) !! 0).
Proof.
  unfold directoryEntries. rewrite elem_of_app, !list_elem_of_fmap. split.
  - intros [(f & [=] & _) | (f & [= ->] & Hf)].
    rewrite elem_of_uniqueInOrder in Hf.
    apply list_elem_of_fmap in Hf as (name & -> & Hname).
    apply list_elem_of_filter in Hname as [[Hstarts Hlen] Hin]. by exists name.
  - intros (name & Hin & Hstarts & Hlen & ->). right. eexists. split; [done|].
    rewrite elem_of_uniqueInOrder. apply list_elem_of_fmap. exists name. split; [done|].
    by apply list_elem_of_filter.
Qed.

(** X20. The files listed for a directory. When every file name of the
    package starts with a slash, an entry of type 1 with a name [base] is
    listed for [dirPath] exactly when [base] has no slash and the package has
    the file [dirPath/base]. *)
Theorem directory_lists_its_files names dirPath base :
  Forall (λ name, startsWith name "/" = true) names →
  (base, 1) ∈ directoryEntries names dirPath
  ↔ lastIndexOf slash base = None ∧ dirPath +:+ "/" +:+ base ∈ names.
Proof.
  intros Hnames. rewrite directoryEntries_files. split.
  - intros (name & Hin & Hdir & ->).
    rewrite Forall_forall in Hnames. specialize (Hnames name Hin).
    apply startsWith_spec in Hnames as [rest Hname]. rewrite slash_string in Hname.
    destruct (lastIndexOf slash name) as [i|] eqn:Hlast;
      [|subst name; by apply lastIndexOf_starts in Hlast].
    change (substringTo i name = dirPath) in Hdir.
    destruct (lastIndexOf_Some _ _ _ Hlast) as (Heq & Hlen & Hnone).
    rewrite Hdir in Heq, Hlen. rewrite <- Hlen in Hnone, Heq.
    split; [done|]. by rewrite slash_string, <- Heq.
  - intros [Hbase Hin]. exists (dirPath +:+ "/" +:+ base). split; [done|].
    rewrite slash_string, (lastIndexOf_separator _ _ _ Hbase).
    change (default 0 (Some (String.length dirPath))) with (String.length dirPath).
    by rewrite substringTo_append, sliceFrom_after_separator.
Qed.

(** X21. The directories listed for a directory. An entry of type 2 with a
    name [dir] is listed for [dirPath] exactly when [dir] has no slash and the
    package has a file under [dirPath/dir/]; each such directory is listed
    once, however many files it holds, and every entry has type 1 or 2. *)
Theorem directory_lists_subdirectories_once names dirPath :
  (∀ dir,
     (dir, 2) ∈ directoryEntries names dirPath
     ↔ lastIndexOf slash dir = None
       ∧ ∃ rest, dirPath +:+ "/" +:+ dir +:+ "/" +:+ rest ∈ names)
  ∧ NoDup (filter (λ entry, entry.2 = 2) (directoryEntries names dirPath))
  ∧ Forall (λ entry, entry.2 = 1 ∨ entry.2 = 2) (directoryEntries names dirPath).
Proof.
  split; [|split].
  - intros dir. rewrite directoryEntries_dirs. split.
    + intros (name & Hin & Hstarts & Hlen & ->).
      apply startsWith_spec in Hstarts as [tail ->].
      rewrite append_assoc, slash_string in Hlen |- *.
      rewrite sliceFrom_after_separator in Hlen |- *.
      pose proof (joinWith_splitOn slash tail) as Hjoin.
      pose proof (splitOn_parts slash tail) as Hparts.
      destruct (splitOn slash tail) as [|part0 [|part1 parts]]; cbn in Hlen; [lia..|].
      apply Forall_cons in Hparts as [Hpart0 _]. cbn [lookup list_lookup default].
      split; [done|]. exists (joinWith slash (part1 :: parts)).
      rewrite append_assoc, slash_string, <- Hjoin in Hin.
      change (joinWith slash (part0 :: part1 :: parts))
        with (part0 +:+ String slash (joinWith slash (part1 :: parts))) in Hin.
      by rewrite !slash_string.
    + intros (Hdir & rest & Hin). eexists. split; [exact Hin|].
      rewrite (slash_string (dir +:+ _)), (slash_string rest), sliceFrom_after_separator.
      rewrite (splitOn_append _ _ _ Hdir).
      pose proof (splitOn_nonempty slash rest) as Hne.
      split; [apply startsWith_spec; eexists; by rewrite append_assoc, slash_string|].
      split; [destruct (splitOn slash rest); [done|cbn; lia]|done].
  - unfold directoryEntries. rewrite filter_app.
    assert (Hfiles : ∀ files : list string,
              filter (λ entry : string * nat, entry.2 = 2) ((λ f, (f, 1)) <$> files) = []).
    { induction files as [|f files IH]; [done|].
      by rewrite fmap_cons, filter_cons_False by done. }
    assert (Hdirs : ∀ dirs : list string,
              filter (λ entry : string * nat, entry.2 = 2) ((λ f, (f, 2)) <$> dirs)
              = (λ f, (f, 2)) <$> dirs).
    { induction dirs as [|d dirs IH]; [done|].
      by rewrite fmap_cons, filter_cons_True, IH by done. }
    rewrite Hfiles, Hdirs, app_nil_l.
    apply NoDup_fmap_2; [by intros x y [=]|]. apply uniqueInOrder_spec.
  - unfold directoryEntries. apply Forall_app. split; apply Forall_forall.
    + intros entry (f & -> & _)%list_elem_of_fmap. by left.
    + intros entry (f & -> & _)%list_elem_of_fmap. by right.
Qed.

End ListingFacts.

Section TypesPackageFacts.

Implicit Types (scope name : string).

Lemma indexOf_unfold pattern s :
  indexOf pattern s
  = if startsWith s pattern then Some 0
    else match s with
         | EmptyString => None
         | String _ s' => S <$> indexOf pattern s'
         end.
Proof. by destruct s. Qed.

Lemma sliceFrom_add s n rest :
  sliceFrom (String.length s + n) (s +:+ rest) = sliceFrom n rest.
Proof. induction s as [|c s IH]; [done|]. by rewrite append_cons. Qed.

Lemma indexOf_after_scope scope name :
  lastIndexOf underscore scope = None →
  indexOf "__" (scope +:+ "__" +:+ name) = Some (String.length scope).
Proof.
  induction scope as [|c scope IH].
  - intros _. rewrite append_empty_l, indexOf_unfold.
    replace (startsWith ("__" +:+ name) "__") with true
      by (symmetry; apply startsWith_spec; by exists name).
    done.
  - cbn [lastIndexOf]. destruct (lastIndexOf underscore scope) as [i|]; [done|].
    destruct (Ascii.eqb c underscore) eqn:Hc; [done|]. intros _.
    rewrite append_cons, indexOf_unfold. cbn [startsWith].
    unfold underscore in Hc. rewrite Ascii.eqb_sym in Hc. rewrite Hc.
    cbn [andb]. by rewrite IH.
Qed.

(** X22. The original package of a types package. For a scope without an
    underscore, the types package [@types/scope__name] stands for the package
    [@scope/name]; and a types package [@types/name] whose name has no double
    underscore stands for [name]. *)
Theorem types_package_names_its_original scope name :
  (lastIndexOf underscore scope = None →
   originalPackageName ("@types/" +:+ scope +:+ "__" +:+ name)
   = "@" +:+ scope +:+ "/" +:+ name)
  ∧ (indexOf "__" name = None →
     originalPackageName ("@types/" +:+ name) = name).
Proof.
  assert (Hslice : ∀ rest, sliceFrom (String.length "@types/") ("@types/" +:+ rest) = rest)
    by (intros rest; apply sliceFrom_append).
  split.
  - intros Hscope. unfold originalPackageName, replaceFirst.
    rewrite Hslice, (indexOf_after_scope _ _ Hscope).
    rewrite substringTo_append, sliceFrom_add. done.
  - intros Hname. unfold originalPackageName. by rewrite Hslice, Hname.
Qed.

End TypesPackageFacts.


(** ** Auto insertion *)

Section DispatchReturnFacts.

Context {Snapshot CodeInformation Mapping World Err T K : Type}.
Context (truthy : T → bool).

Abbreviation RDocs := (DocumentsAndMap CodeInformation Mapping).
Abbreviation RWork := (Worker (World := World) (Err := Err) (T := T) (K := K)
                         (CodeInformation := CodeInformation) (Mapping := Mapping)).
Abbreviation RRun := (Run (World := World) (Err := Err) (T := T) (K := K)
                        (CodeInformation := CodeInformation) (Mapping := Mapping)).
Abbreviation RTarget := (Target (K := K) (CodeInformation := CodeInformation)
                           (Mapping := Mapping)).



End DispatchReturnFacts.

Section AutoInsertFacts.

Context {Snapshot CodeInformation Mapping World Err : Type}.

Abbreviation IDocs := (DocumentsAndMap CodeInformation Mapping).
Abbreviation IPlugin := (LanguageServicePlugin * LanguageServicePluginInstance)%type.
Abbreviation IRun := (Run (World := World) (Err := Err) (T := AutoInsertItem)
                        (K := AutoInsertArg)
                        (CodeInformation := CodeInformation) (Mapping := Mapping)).
Abbreviation ITarget := (Target (K := AutoInsertArg) (CodeInformation := CodeInformation)
                           (Mapping := Mapping)).

Context (toGeneratedPositions : IDocs → Position → (CodeInformation → bool) → list Position).
Context (getGeneratedOffset : IDocs → nat → option (nat * Mapping)).
Context (toGeneratedRange : IDocs → Range → option Range).
Context (toSourceRange : IDocs → Range → (CodeInformation → bool) → option Range).
Context (isAutoInsertEnabled : CodeInformation → bool).
Context (isCancellationRequested : World → bool).
Context (provideAutoInsertionEdit :
           IPlugin
           → option (TextDocument → Position → AutoInsertionContext → World
                     → Outcome Err (JsVal AutoInsertItem) * World)).

Abbreviation autoInsert' :=
  (autoInsert (Snapshot := Snapshot) toGeneratedPositions getGeneratedOffset
     toGeneratedRange toSourceRange isAutoInsertEnabled isCancellationRequested
     provideAutoInsertionEdit).

Implicit Types (context : LanguageServiceContext Snapshot CodeInformation Mapping)
  (position : Position) (autoInsertContext : AutoInsertionContext) (s : IRun).




End AutoInsertFacts.


(** ** The further properties on concrete inputs *)

Module SampleFacts.

Import Example Sample.

Lemma component_script : scripts context !! componentUri = Some component.
Proof. vm_compute. reflexivity. Defined.

Lemma plain_script : scripts context !! plainUri = Some plain.
Proof. vm_compute. reflexivity. Defined.

(** With the combiner every accepted call contributes, and the calls that
    threw are logged. *)
Example combined_dispatch_on_component :
  let run := languageFeatureWorker truthyString context componentUri
               (λ _, 7) (λ _, [1; 2]) worker keep (Some (String.concat ",")) start in
  run.1 = Returned (Some "color,color")
  ∧ length (invoked run.2) = 12
  ∧ length (warned run.2) = 6.
Proof. repeat split; vm_compute; reflexivity. Qed.

Lemma combiner_runs_every_candidate_witness :
  scripts context !! componentUri = Some component
  ∧ ∃ s' trace,
      (languageFeatureWorker truthyString context componentUri
         (λ _, 7) (λ _, [1; 2]) worker keep (Some (String.concat ",")) start).2 = s'
      ∧ invoked s' = invoked start ++ trace
      ∧ trace.*1 = candidates context component (λ _, 7) (λ _, [1; 2]).
Proof.
  split; [exact component_script|].
  destruct (combiner_runs_every_candidate truthyString context worker keep
              (String.concat ",") componentUri (λ _, 7) (λ _, [1; 2]) component start
              component_script) as (s' & trace & Hrun & Hinv & Htargets).
  exists s', trace. split; [by rewrite Hrun|]. split; assumption.
Defined.

Lemma calls_only_enabled_registered_plugins_witness :
  scripts context !! componentUri = Some component
  ∧ ∃ r s' trace,
      languageFeatureWorker truthyString context componentUri
        (λ _, 7) (λ _, [1; 2]) worker keep None start = (Returned r, s')
      ∧ invoked s' = invoked start ++ trace
      ∧ Forall (λ call : Target * Outcome string (JsVal string),
                  plugins context !! tg_pluginIndex call.1 = Some (tg_plugin call.1)
                  ∧ instanceId (tg_plugin call.1).2 ∉ disabledServicePlugins context)
               trace.
Proof.
  split; [exact component_script|].
  exact (calls_only_enabled_registered_plugins truthyString context worker keep None
           componentUri (λ _, 7) (λ _, [1; 2]) component start component_script).
Defined.


Lemma document_worker_calls_valid_documents_witness :
  scripts context !! componentUri = Some component
  ∧ generated component = Some root
  ∧ ∃ r s' trace,
      documentFeatureWorker truthyString context componentUri isCss languageOf keep
        None documentStart = (Returned r, s')
      ∧ invoked s' = invoked documentStart ++ trace
      ∧ Forall (λ call : Target * Outcome string (JsVal string),
                  ∃ docs, docs ∈ forEachEmbeddedDocument context component root
                          ∧ isCss docs = true
                          ∧ tg_map call.1 = Some docs
                          ∧ tg_document call.1 = docs.1.2)
               trace.
Proof.
  split; [exact component_script|]. split; [reflexivity|].
  exact (document_worker_calls_valid_documents truthyString context componentUri isCss
           languageOf keep None component root documentStart component_script eq_refl).
Defined.

Example document_worker_on_component :
  (documentFeatureWorker truthyString context componentUri isCss languageOf keep
     None documentStart).1 = Returned (Some "css").
Proof. vm_compute. reflexivity. Qed.

Lemma document_worker_nothing_valid_witness :
  scripts context !! componentUri = Some component
  ∧ generated component = Some root
  ∧ (∀ docs, docs ∈ forEachEmbeddedDocument context component root → never docs = false)
  ∧ documentFeatureWorker truthyString context componentUri never languageOf keep
      None documentStart = (Returned None, documentStart).
Proof.
  split; [exact component_script|]. split; [reflexivity|].
  split; [intros docs _; reflexivity|].
  exact (document_worker_nothing_valid truthyString context componentUri never
           languageOf keep None component root documentStart component_script eq_refl
           (λ docs _, eq_refl)).
Defined.

Lemma document_worker_plain_ignores_valid_witness :
  scripts context !! plainUri = Some plain
  ∧ generated plain = None
  ∧ documentFeatureWorker truthyString context plainUri isCss languageOf keep
      None documentStart
    = documentFeatureWorker truthyString context plainUri never languageOf keep
        None documentStart.
Proof.
  split; [exact plain_script|]. split; [reflexivity|].
  exact (document_worker_plain_ignores_valid truthyString context plainUri isCss never
           languageOf keep None plain documentStart plain_script eq_refl).
Defined.

Lemma range_round_trip_witness :
  identityStartEnd identityDocs.2 2 5 true None = [(2, 5)]
  ∧ getGeneratedRange identityStartEnd identityDocs
      (mkRange (mkPosition 0 2) (mkPosition 0 5)) None
    = Some (mkRange (mkPosition 0 2) (mkPosition 0 5)).
Proof.
  split; [reflexivity|].
  exact (proj2 (range_round_trip identityStartEnd identityStartEnd
                  identityDocs.1.1 identityDocs.1.2 identityDocs.2
                  (mkRange (mkPosition 0 2) (mkPosition 0 5)) None None 2 5
                  eq_refl eq_refl eq_refl eq_refl)).
Defined.

Lemma positions_denote_mapped_offsets_witness :
  (∀ offset, offset ∈ getLinkedOffsets linked (offsetAt letDocument (mkPosition 0 4)) →
     offsetAt letDocument (positionAt letDocument offset) = offset)
  ∧ offsetAt letDocument <$> getLinkedCodePositions letDocument linked (mkPosition 0 4)
    = [1].
Proof.
  assert (Hvalid : ∀ offset,
            offset ∈ getLinkedOffsets linked (offsetAt letDocument (mkPosition 0 4)) →
            offsetAt letDocument (positionAt letDocument offset) = offset).
  { intros offset Hin. change (offset ∈ [1]) in Hin.
    apply list_elem_of_singleton in Hin. rewrite Hin. reflexivity. }
  split; [exact Hvalid|].
  exact (proj2 (proj2 (positions_denote_mapped_offsets letDocument letDocument
                         identityMap linked (mkPosition 0 4) None)) Hvalid).
Defined.

Lemma level_view_never_fails_witness :
  (-1 < 0)%Z
  ∧ getEmbeddedFilesByLevel context componentUri root (-1) = LevelUndefined.
Proof.
  assert (Hlevel : (-1 < 0)%Z) by lia.
  split; [exact Hlevel|].
  exact (proj1 (level_view_never_fails context componentUri root (-1)) Hlevel).
Defined.

Lemma level_codes_are_walked_witness :
  (0 < 1)%Z
  ∧ getEmbeddedFilesByLevel context (ss_id component) root 1 = LevelFiles [style]
  ∧ style ∈ [style]
  ∧ documentsOf context component style ∈ forEachEmbeddedDocument context component root.
Proof.
  assert (Hlevel : (0 < 1)%Z) by lia.
  assert (Hfiles : getEmbeddedFilesByLevel context (ss_id component) root 1
                   = LevelFiles [style]) by (vm_compute; reflexivity).
  assert (Hin : style ∈ [style]) by apply list_elem_of_here.
  split; [exact Hlevel|]. split; [exact Hfiles|]. split; [exact Hin|].
  exact (proj2 (proj2 (level_codes_are_walked context component root 1 [style] style
                         Hlevel Hfiles Hin))).
Defined.

Lemma level_beyond_height_is_empty_witness :
  (Z.of_nat (height root) < 3)%Z
  ∧ getEmbeddedFilesByLevel context componentUri root 3 = LevelFiles [].
Proof.
  assert (Hlevel : (Z.of_nat (height root) < 3)%Z) by (vm_compute; reflexivity).
  split; [exact Hlevel|].
  exact (level_beyond_height_is_empty context componentUri root 3 Hlevel).
Defined.

(** The examples of the documentation of [resolvePackageName]. *)
Example resolvePackageName_documented :
  resolvePackageName None "a/b/c" = Some ("a", "a", None)
  ∧ resolvePackageName None "@a/b/c" = Some ("@a/b", "@a/b", None)
  ∧ resolvePackageName None "@a/b@1.2.3/c" = Some ("@a/b@1.2.3", "@a/b", Some "1.2.3").
Proof. repeat split; vm_compute; reflexivity. Qed.

Lemma scoped_versioned_path :
  resolvePackageName (Some (λ _, Some "9.9.9")) "@a/b@1.2.3/lib/c.d.ts"
  = Some ("@a/b@1.2.3", "@a/b", Some "1.2.3").
Proof. vm_compute. reflexivity. Defined.

Lemma resolved_module_is_path_prefix_witness :
  resolvePackageName (Some (λ _, Some "9.9.9")) "@a/b@1.2.3/lib/c.d.ts"
  = Some ("@a/b@1.2.3", "@a/b", Some "1.2.3")
  ∧ ∃ rest,
      "@a/b@1.2.3/lib/c.d.ts" = "@a/b@1.2.3" +:+ rest
      ∧ sliceFrom (String.length "@a/b@1.2.3") "@a/b@1.2.3/lib/c.d.ts" = rest
      ∧ (rest = EmptyString ∨ startsWith rest "/" = true).
Proof.
  split; [exact scoped_versioned_path|].
  exact (resolved_module_is_path_prefix _ _ _ _ _ scoped_versioned_path).
Defined.

Lemma resolved_version_is_written_in_path_witness :
  resolvePackageName (Some (λ _, Some "9.9.9")) "@a/b@1.2.3/lib/c.d.ts"
  = Some ("@a/b@1.2.3", "@a/b", Some "1.2.3")
  ∧ resolvePackageName None "@a/b@1.2.3/lib/c.d.ts"
    = Some ("@a/b@1.2.3", "@a/b", Some "1.2.3").
Proof.
  split; [exact scoped_versioned_path|].
  exact (proj2 (resolved_version_is_written_in_path _ _ _ _ _ scoped_versioned_path)).
Defined.

(** The answer of [getPackageVersion] is not used: a path without a version
    resolves without one. *)
Example unversioned_path_stays_unversioned :
  resolvePackageName (Some (λ _, Some "9.9.9")) "foo/index.d.ts"
  = Some ("foo", "foo", None).
Proof. vm_compute. reflexivity. Qed.

Lemma default_cdn_path_keeps_slash_witness :
  defaultCdnPath "/node_modules/foo/index.d.ts" = Some "/foo/index.d.ts"
  ∧ resolvePackageName None "/foo/index.d.ts" = Some (EmptyString, EmptyString, None).
Proof.
  assert (Hpath : defaultCdnPath "/node_modules/foo/index.d.ts" = Some "/foo/index.d.ts")
    by (vm_compute; reflexivity).
  split; [exact Hpath|].
  refine (proj2 (proj2 (proj2 (default_cdn_path_keeps_slash "/node_modules/foo/index.d.ts"))
                   "/foo/index.d.ts" None Hpath _)).
  intros Hempty. discriminate Hempty.
Defined.

Lemma file_system_outside_node_modules_witness :
  "/src/main.ts" ≠ "/node_modules"
  ∧ startsWith "/src/main.ts" "/node_modules/" = false
  ∧ stat defaultCdnPath countingStat "/src/main.ts" 0 = (Returned None, 0)
  ∧ readFile defaultCdnPath countingReadFile "/src/main.ts" 0 = (Returned None, 0)
  ∧ readDirectory defaultCdnPath countingReadDirectory "/src/main.ts" 0
    = (Returned [], 0).
Proof.
  assert (Hne : "/src/main.ts" ≠ "/node_modules") by (intros Heq; discriminate Heq).
  split; [exact Hne|]. split; [reflexivity|].
  exact (proj1 (file_system_outside_node_modules countingStat countingReadFile
                  countingReadDirectory "/src/main.ts" 0) Hne eq_refl).
Defined.

Lemma fetchText_caches_every_answer_witness :
  textCache offline !! "https://cdn.jsdelivr.net/npm/b/index.d.ts" = None
  ∧ requested (fetchText serveIndex "https://cdn.jsdelivr.net/npm/b/index.d.ts" offline).2
    = requested offline ++ ["https://cdn.jsdelivr.net/npm/b/index.d.ts"].
Proof.
  assert (Hmiss : textCache offline !! "https://cdn.jsdelivr.net/npm/b/index.d.ts" = None)
    by (vm_compute; reflexivity).
  split; [exact Hmiss|].
  exact (proj1 (proj2 (proj2 (proj2 (proj2
           (fetchText_caches_every_answer serveIndex offline
              "https://cdn.jsdelivr.net/npm/b/index.d.ts")))) Hmiss)).
Defined.

(** A URL that is not served is asked for once: the failure is cached. *)
Example failed_fetch_is_cached :
  let first := fetchText serveIndex "https://cdn.jsdelivr.net/npm/b/index.d.ts" offline in
  let second := fetchText serveIndex "https://cdn.jsdelivr.net/npm/b/index.d.ts" first.2 in
  first.1 = None ∧ second.1 = None ∧ remote second.2 = 1
  ∧ requested second.2 = ["https://cdn.jsdelivr.net/npm/b/index.d.ts"].
Proof. repeat split; vm_compute; reflexivity. Qed.

Lemma fetchJson_has_its_own_cache_witness :
  jsonCache offline !! "https://cdn.jsdelivr.net/npm/a/index.d.ts" = None
  ∧ requested (fetchJson serveIndex "https://cdn.jsdelivr.net/npm/a/index.d.ts"
                 (fetchText serveIndex "https://cdn.jsdelivr.net/npm/a/index.d.ts"
                    offline).2).2
    = requested (fetchText serveIndex "https://cdn.jsdelivr.net/npm/a/index.d.ts"
                   offline).2
      ++ ["https://cdn.jsdelivr.net/npm/a/index.d.ts"].
Proof.
  assert (Hmiss : jsonCache offline !! "https://cdn.jsdelivr.net/npm/a/index.d.ts" = None)
    by (vm_compute; reflexivity).
  split; [exact Hmiss|].
  exact (proj2 (proj2 (proj2 (proj2
           (fetchJson_has_its_own_cache serveIndex offline
              "https://cdn.jsdelivr.net/npm/a/index.d.ts")))) Hmiss).
Defined.

Example listing_of_package :
  directoryEntries packageFiles EmptyString
  = [("package.json", 1); ("index.d.ts", 1); ("lib", 2)]
  ∧ directoryEntries packageFiles "/lib" = [("a.d.ts", 1); ("b.d.ts", 1); ("deep", 2)].
Proof. split; vm_compute; reflexivity. Qed.

Lemma package_files_start_with_slash :
  Forall (λ name, startsWith name "/" = true) packageFiles.
Proof. repeat constructor. Defined.

Lemma directory_lists_its_files_witness :
  Forall (λ name, startsWith name "/" = true) packageFiles
  ∧ (("a.d.ts", 1) ∈ directoryEntries packageFiles "/lib"
     ↔ lastIndexOf slash "a.d.ts" = None ∧ "/lib" +:+ "/" +:+ "a.d.ts" ∈ packageFiles).
Proof.
  split; [exact package_files_start_with_slash|].
  exact (directory_lists_its_files packageFiles "/lib" "a.d.ts"
           package_files_start_with_slash).
Defined.

Lemma types_package_names_its_original_witness :
  lastIndexOf underscore "babel" = None
  ∧ originalPackageName ("@types/" +:+ "babel" +:+ "__" +:+ "core")
    = "@" +:+ "babel" +:+ "/" +:+ "core".
Proof.
  split; [reflexivity|].
  exact (proj1 (types_package_names_its_original "babel" "core") eq_refl).
Defined.

Example auto_insert_on_component :
  (autoInsert samePositions sameOffset sameRange sameSourceRange enabled (λ _, false)
     closeBrace context componentUri (mkPosition 0 3) typed insertStart).1
  = Returned (Some (Edit (mkTextEdit (mkRange (mkPosition 0 3) (mkPosition 0 3)) "}"))).
Proof. vm_compute. reflexivity. Qed.





End SampleFacts.
